(** * SSM association resource: converters and lifecycle operations

    A shallow embedding of [aws/resource_aws_ssm_association.go].

    Go values are modelled as follows.
    - [interface{}] is the inductive [Value]; a type assertion [v.(T)] is a
      partial function that panics on a mismatch.
    - A pointer [*T] is [option T]; [nil] is [None] and dereferencing [None]
      panics.
    - A slice [[]T] that the code compares with [nil] is [option (list T)],
      so that the nil slice and the empty non-nil slice stay distinct.
    - [map[string]T] is [gmap string T].
    - A Go [error] result is [option error]; [None] is the nil error. *)

From stdpp Require Import base option list gmap strings.

Set Default Proof Using "Type".

(** ** Runtime panics

    A panic is told apart by its kind; the message it carries (the length
    and index, the dynamic type of the value a type assertion met) is not
    modelled. *)

Inductive panic : Type :=
| IndexOutOfRange
| InterfaceConversion
| NilDereference.

Inductive outcome (A : Type) : Type :=
| Done (a : A)
| Panic (p : panic).

Arguments Done {A} a.
Arguments Panic {A} p.

#[global] Instance outcome_ret : MRet outcome := λ A a, Done a.
#[global] Instance outcome_bind : MBind outcome := λ A B f c,
  match c with
  | Done a => f a
  | Panic p => Panic p
  end.

Definition panics {A} (c : outcome A) : bool :=
  match c with
  | Done _ => false
  | Panic _ => true
  end.

(** ** Dynamic values *)

#[warnings="-register-all"]
Inductive Value : Type :=
| VNil
| VString (s : string)
| VList (l : list Value)
| VMap (m : gmap string Value).

Fixpoint Value_eq_dec (x y : Value) : Decision (x = y).
Proof.
  refine (match x, y with
          | VNil, VNil => left _
          | VString a, VString b => cast_if (decide (a = b))
          | VList a, VList b => cast_if (@list_eq_dec _ Value_eq_dec a b)
          | VMap a, VMap b => cast_if (@gmap_eq_dec _ _ _ _ Value_eq_dec a b)
          | _, _ => right _
          end); congruence.
Defined.

#[global] Instance Value_eq : EqDecision Value := Value_eq_dec.

(** [v.(string)] *)
Definition assertString (v : Value) : outcome string :=
  match v with
  | VString s => Done s
  | _ => Panic InterfaceConversion
  end.

(** [v.(map[string]interface{})] *)
Definition assertMap (v : Value) : outcome (gmap string Value) :=
  match v with
  | VMap m => Done m
  | _ => Panic InterfaceConversion
  end.

(** [v.([]interface{})] *)
Definition assertList (v : Value) : outcome (list Value) :=
  match v with
  | VList l => Done l
  | _ => Panic InterfaceConversion
  end.

(** [m[k]] read as a single value: a missing key yields the nil interface. *)
Definition mapIndex (m : gmap string Value) (k : string) : Value :=
  default VNil (m !! k).

(** [l[i]] *)
Definition sliceIndex {A} (l : list A) (i : nat) : outcome A :=
  match l !! i with
  | Some a => Done a
  | None => Panic IndexOutOfRange
  end.

(** [*p] *)
Definition deref {A} (p : option A) : outcome A :=
  match p with
  | Some a => Done a
  | None => Panic NilDereference
  end.

(** ** Remote shapes used by the converters *)

(** [ssm.S3OutputLocation] is declared by the SDK: besides the two fields
    this file reads and writes it has a region, which the file never
    touches. *)
Record S3OutputLocation : Type := mkS3OutputLocation {
  OutputS3BucketName : option string;
  OutputS3KeyPrefix : option string;
  OutputS3Region : option string;
}.

Record InstanceAssociationOutputLocation : Type := mkOutputLocation {
  S3Location : option S3OutputLocation;
}.

Record Target : Type := mkTarget {
  Key : option string;
  Values : list (option string);
}.

#[global] Instance S3OutputLocation_eq : EqDecision S3OutputLocation.
Proof. solve_decision. Defined.
#[global] Instance InstanceAssociationOutputLocation_eq :
  EqDecision InstanceAssociationOutputLocation.
Proof. solve_decision. Defined.
#[global] Instance Target_eq : EqDecision Target.
Proof. solve_decision. Defined.

(** ** Shape converters *)

(** One iteration of the [range] loop of [expandSSMDocumentParameters].
    The loop writes each key of [params] once, so the order in which the
    keys are visited does not show in the result. *)
Definition expandSSMDocumentParameters_step (k : string) (v : Value)
    (acc : outcome (gmap string (list (option string))))
    : outcome (gmap string (list (option string))) :=
  docParams ← acc;
  s ← assertString v;
  mret (<[k := [Some s]]> docParams).

Definition expandSSMDocumentParameters (params : gmap string Value)
    : outcome (gmap string (list (option string))) :=
  map_fold expandSSMDocumentParameters_step (mret ∅) params.

Definition expandSSMAssociationOutputLocation (config : option (list Value))
    : outcome (option InstanceAssociationOutputLocation) :=
  match config with
  | None => mret None
  | Some l =>
      e ← sliceIndex l 0;
      locationConfig ← assertMap e;
      bucket ← assertString (mapIndex locationConfig "s3_bucket_name");
      prefix ← match locationConfig !! "s3_key_prefix" with
               | Some v => s ← assertString v; mret (Some s)
               | None => mret None
               end;
      mret (Some {| S3Location :=
                      Some {| OutputS3BucketName := Some bucket;
                              OutputS3KeyPrefix := prefix;
                              OutputS3Region := None |} |})
  end.

Definition flattenAwsSsmAssociationOutoutLocation
    (location : option InstanceAssociationOutputLocation)
    : outcome (option (list (gmap string Value))) :=
  match location with
  | None => mret None
  | Some loc =>
      s3 ← deref (S3Location loc);
      bucket ← deref (OutputS3BucketName s3);
      let item := <["s3_bucket_name" := VString bucket]> (∅ : gmap string Value) in
      let item := match OutputS3KeyPrefix s3 with
                  | Some p => <["s3_key_prefix" := VString p]> item
                  | None => item
                  end in
      mret (Some ([] ++ [item]))
  end.

(** ** Targets converters

    [expandAwsSsmTargets] and [flattenAwsSsmTargets] are called by the
    lifecycle operations but declared in another file of the provider. *)

(** Modelled from the spec: [expandAwsSsmTargets] is declared outside this
    file; the spec asks that an ordered sequence of [{key, values}] blocks
    be carried to the remote representation unchanged in structure. *)
Definition expandAwsSsmTarget (tConfig : Value) : outcome Target :=
  config ← assertMap tConfig;
  key ← assertString (mapIndex config "key");
  vals ← assertList (mapIndex config "values");
  values ← mapM assertString vals;
  mret {| Key := Some key; Values := Some <$> values |}.

(** Modelled from the spec: the sequence of blocks is expanded block by
    block, in order; no block gives the nil slice. *)
Definition expandAwsSsmTargets (targetConfig : list Value)
    : outcome (option (list Target)) :=
  match targetConfig with
  | [] => mret None
  | _ => targets ← mapM expandAwsSsmTarget targetConfig; mret (Some targets)
  end.

(** Modelled from the spec: [flattenAwsSsmTargets] is declared outside this
    file; the spec asks that flattening keep the structure and the order of
    the remote targets. *)
Definition flattenAwsSsmTarget (target : Target) : outcome (gmap string Value) :=
  key ← deref (Key target);
  values ← mapM deref (Values target);
  mret (<["values" := VList (VString <$> values)]>
          (<["key" := VString key]> (∅ : gmap string Value))).

(** Modelled from the spec: the remote targets are flattened one by one, in
    order; no target gives the nil slice. *)
Definition flattenAwsSsmTargets (targets : option (list Target))
    : outcome (option (list (gmap string Value))) :=
  match targets with
  | None | Some [] => mret None
  | Some l => result ← mapM flattenAwsSsmTarget l; mret (Some result)
  end.

(** ** Errors *)

Inductive error : Type :=
| awsError (code message : string)
| errorString (s : string).

#[global] Instance error_eq : EqDecision error.
Proof. solve_decision. Defined.

(** [err.Error()] *)
Definition Error (e : error) : string :=
  match e with
  | awsError code message => code +:+ ": " +:+ message
  | errorString s => s
  end.

(** [fmt.Errorf(prefix + "%s", err)] *)
Definition Errorf_s (prefix : string) (err : error) : error :=
  errorString (prefix +:+ Error err).

Definition quote : string := String (Ascii.ascii_of_nat 34) EmptyString.

(** [fmt.Errorf(prefix + "%#v", err)] *)
Definition Errorf_v (prefix : string) (err : error) : error :=
  errorString (prefix +:+ "&errors.errorString{s:" +:+ quote +:+ Error err
                 +:+ quote +:+ "}").

(** [strings.Contains] *)
Fixpoint Contains (s substr : string) : bool :=
  String.prefix substr s ||
  match s with
  | EmptyString => false
  | String _ s' => Contains s' substr
  end.

Definition ErrCodeAssociationDoesNotExist : string := "AssociationDoesNotExist".

(** Modelled from the spec: [isAWSErr] is declared outside this file; the
    spec singles out the remote error whose code is the given one (the
    message filter is the empty string at the only call site). *)
Definition isAWSErr (err : error) (code message : string) : bool :=
  match err with
  | awsError c m => bool_decide (c = code) && Contains m message
  | errorString _ => false
  end.

(** ** Schema *)

Inductive ValueType : Type := TypeString | TypeMap | TypeList.

#[global] Instance ValueType_eq : EqDecision ValueType.
Proof. solve_decision. Defined.

#[warnings="-register-all"]
Inductive Schema : Type :=
  mkSchema (Type_ : ValueType) (Optional Required Computed ForceNew : bool)
           (MaxItems : Z) (Elem : SchemaElem)
with SchemaElem : Type :=
| ElemNone
| ElemSchema (s : Schema)
| ElemResource (fields : gmap string Schema).

Definition Type_ (s : Schema) : ValueType :=
  let 'mkSchema t _ _ _ _ _ _ := s in t.
Definition Optional (s : Schema) : bool :=
  let 'mkSchema _ b _ _ _ _ _ := s in b.
Definition Required (s : Schema) : bool :=
  let 'mkSchema _ _ b _ _ _ _ := s in b.
Definition Computed (s : Schema) : bool :=
  let 'mkSchema _ _ _ b _ _ _ := s in b.
Definition ForceNew (s : Schema) : bool :=
  let 'mkSchema _ _ _ _ b _ _ := s in b.
Definition MaxItems (s : Schema) : Z :=
  let 'mkSchema _ _ _ _ _ n _ := s in n.
Definition Elem (s : Schema) : SchemaElem :=
  let 'mkSchema _ _ _ _ _ _ e := s in e.

(** A schema literal lists only the fields it sets; the others are zero. *)
Definition schemaOf (t : ValueType) : Schema :=
  mkSchema t false false false false 0 ElemNone.
Definition optional (s : Schema) : Schema :=
  mkSchema (Type_ s) true (Required s) (Computed s) (ForceNew s) (MaxItems s) (Elem s).
Definition required (s : Schema) : Schema :=
  mkSchema (Type_ s) (Optional s) true (Computed s) (ForceNew s) (MaxItems s) (Elem s).
Definition computed (s : Schema) : Schema :=
  mkSchema (Type_ s) (Optional s) (Required s) true (ForceNew s) (MaxItems s) (Elem s).
Definition forceNew (s : Schema) : Schema :=
  mkSchema (Type_ s) (Optional s) (Required s) (Computed s) true (MaxItems s) (Elem s).
Definition maxItems (n : Z) (s : Schema) : Schema :=
  mkSchema (Type_ s) (Optional s) (Required s) (Computed s) (ForceNew s) n (Elem s).
Definition elem (e : SchemaElem) (s : Schema) : Schema :=
  mkSchema (Type_ s) (Optional s) (Required s) (Computed s) (ForceNew s) (MaxItems s) e.

Record Resource : Type := mkResource {
  SchemaVersion : Z;
  ResourceSchema : gmap string Schema;
}.

Definition resourceAwsSsmAssociation : Resource :=
  {| SchemaVersion := 1;
     ResourceSchema :=
       list_to_map [
         ("association_name", optional (schemaOf TypeString));
         ("association_id", computed (schemaOf TypeString));
         ("instance_id", optional (forceNew (schemaOf TypeString)));
         ("document_version", computed (optional (schemaOf TypeString)));
         ("name", required (forceNew (schemaOf TypeString)));
         ("parameters", computed (optional (schemaOf TypeMap)));
         ("schedule_expression", optional (schemaOf TypeString));
         ("output_location",
           elem (ElemResource (list_to_map [
                   ("s3_bucket_name", required (schemaOf TypeString));
                   ("s3_key_prefix", optional (schemaOf TypeString))]))
             (optional (maxItems 1 (schemaOf TypeList))));
         ("targets",
           elem (ElemResource (list_to_map [
                   ("key", required (schemaOf TypeString));
                   ("values", elem (ElemSchema (schemaOf TypeString))
                                (required (schemaOf TypeList)))]))
             (maxItems 5 (computed (optional (schemaOf TypeList)))))
       ] |}.

(** ** Remote service: request and response shapes

    Each structure lists the fields this file reads or writes. *)

Module CreateAssociationInput.
Record t : Type := mk {
  Name : option string;
  AssociationName : option string;
  InstanceId : option string;
  DocumentVersion : option string;
  ScheduleExpression : option string;
  Parameters : option (gmap string (list (option string)));
  Targets : option (list Target);
  OutputLocation : option InstanceAssociationOutputLocation;
}.
End CreateAssociationInput.

Module UpdateAssociationInput.
Record t : Type := mk {
  AssociationId : option string;
  AssociationName : option string;
  DocumentVersion : option string;
  ScheduleExpression : option string;
  Parameters : option (gmap string (list (option string)));
  Targets : option (list Target);
  OutputLocation : option InstanceAssociationOutputLocation;
}.
End UpdateAssociationInput.

Module DescribeAssociationInput.
Record t : Type := mk { AssociationId : option string }.
End DescribeAssociationInput.

Module DeleteAssociationInput.
Record t : Type := mk { AssociationId : option string }.
End DeleteAssociationInput.

Module AssociationDescription.
Record t : Type := mk {
  AssociationId : option string;
  AssociationName : option string;
  InstanceId : option string;
  Name : option string;
  Parameters : option (gmap string (list (option string)));
  ScheduleExpression : option string;
  DocumentVersion : option string;
  Targets : option (list Target);
  OutputLocation : option InstanceAssociationOutputLocation;
}.
End AssociationDescription.

(** [CreateAssociationOutput], [DescribeAssociationOutput] and
    [UpdateAssociationOutput] all carry one optional descriptor. *)
Record AssociationOutput : Type := mkAssociationOutput {
  AssociationDescription : option AssociationDescription.t;
}.

#[global] Instance CreateAssociationInput_eq : EqDecision CreateAssociationInput.t.
Proof. solve_decision. Defined.
#[global] Instance UpdateAssociationInput_eq : EqDecision UpdateAssociationInput.t.
Proof. solve_decision. Defined.
#[global] Instance DescribeAssociationInput_eq : EqDecision DescribeAssociationInput.t.
Proof. solve_decision. Defined.
#[global] Instance DeleteAssociationInput_eq : EqDecision DeleteAssociationInput.t.
Proof. solve_decision. Defined.

(** The remote calls a lifecycle operation has issued, oldest first. *)
Inductive Call : Type :=
| CallCreateAssociation (input : CreateAssociationInput.t)
| CallDescribeAssociation (input : DescribeAssociationInput.t)
| CallUpdateAssociation (input : UpdateAssociationInput.t)
| CallDeleteAssociation (input : DeleteAssociationInput.t).

(** The service client [ssmconn]: each operation answers from, and may
    change, the state [World] of the remote service. *)
Record SSM (World : Type) : Type := mkSSM {
  CreateAssociation :
    CreateAssociationInput.t → World → (error + AssociationOutput) * World;
  DescribeAssociation :
    DescribeAssociationInput.t → World → (error + AssociationOutput) * World;
  UpdateAssociation :
    UpdateAssociationInput.t → World → (error + AssociationOutput) * World;
  DeleteAssociation :
    DeleteAssociationInput.t → World → (error + unit) * World;
}.

Arguments CreateAssociation {World} _ _ _.
Arguments DescribeAssociation {World} _ _ _.
Arguments UpdateAssociation {World} _ _ _.
Arguments DeleteAssociation {World} _ _ _.

Record Remote (World : Type) : Type := mkRemote {
  world : World;
  calls : list Call;
}.

Arguments mkRemote {World} _ _.
Arguments world {World} _.
Arguments calls {World} _.

(** ** The managed record *)

(** Modelled from the spec: [schema.ResourceData] belongs to the surrounding
    framework; the spec describes it as a mutable record view with get and
    set per field, an is-the-field-set query, and the previously observed
    value of each field. [state] holds the last observed values, [fields]
    the current ones. *)

Record ResourceData : Type := mkResourceData {
  Id : string;
  state : gmap string Value;
  fields : gmap string Value;
}.

Definition zeroValue (t : ValueType) : Value :=
  match t with
  | TypeString => VString ""
  | TypeMap => VMap ∅
  | TypeList => VList []
  end.

Definition zeroOf (key : string) : Value :=
  match ResourceSchema resourceAwsSsmAssociation !! key with
  | Some s => zeroValue (Type_ s)
  | None => VNil
  end.

Definition readField (m : gmap string Value) (key : string) : Value :=
  default (zeroOf key) (m !! key).

(** Modelled from the spec: [d.Get(key)], the current value of the field, or
    the zero value of its declared type when the field is unset. *)
Definition Get (d : ResourceData) (key : string) : Value :=
  readField (fields d) key.

(** Modelled from the spec: [d.GetOk(key)], the value and whether the field
    is set, that is, differs from the zero value of its type. *)
Definition GetOk (d : ResourceData) (key : string) : Value * bool :=
  let v := Get d key in (v, bool_decide (v ≠ zeroOf key)).

(** Modelled from the spec: [d.HasChange(key)], whether the field differs
    from its previously observed value. *)
Definition HasChange (d : ResourceData) (key : string) : bool :=
  bool_decide (readField (state d) key ≠ Get d key).

(** Modelled from the spec: [d.SetId(v)]. *)
Definition SetId (v : string) (d : ResourceData) : ResourceData :=
  {| Id := v; state := state d; fields := fields d |}.

(** Modelled from the spec: [d.Set(key, value)] overwrites the field and
    reports no error; a nil value unsets the field. *)
Definition Set_ (key : string) (value : Value) (d : ResourceData)
    : ResourceData * option error :=
  ({| Id := Id d; state := state d;
      fields := match value with
                | VNil => delete key (fields d)
                | _ => <[key := value]> (fields d)
                end |}, None).

(** The Go values handed to [d.Set], as dynamic values: pointers are
    followed and a nil pointer, map or slice is the nil value. *)
Definition ptrValue (p : option string) : Value :=
  match p with
  | Some s => VString s
  | None => VNil
  end.

Definition parametersValue (p : option (gmap string (list (option string))))
    : Value :=
  match p with
  | Some m => VMap ((λ l, VList (ptrValue <$> l)) <$> m)
  | None => VNil
  end.

Definition blocksValue (p : option (list (gmap string Value))) : Value :=
  match p with
  | Some l => VList (VMap <$> l)
  | None => VNil
  end.

(** ** Lifecycle operations *)

(** [if v, ok := d.GetOk(key); ok { field = aws.String(v.(string)) }] *)
Definition getOkString (d : ResourceData) (key : string)
    : outcome (option string) :=
  let '(v, ok) := GetOk d key in
  if ok then s ← assertString v; mret (Some s) else mret None.

(** [if v, ok := d.GetOk("parameters"); ok { ... }] *)
Definition getOkParameters (d : ResourceData)
    : outcome (option (gmap string (list (option string)))) :=
  let '(v, ok) := GetOk d "parameters" in
  if ok then
    params ← assertMap v;
    docParams ← expandSSMDocumentParameters params;
    mret (Some docParams)
  else mret None.

(** [if _, ok := d.GetOk("targets"); ok { ... }] *)
Definition getOkTargets (d : ResourceData) : outcome (option (list Target)) :=
  let '(_, ok) := GetOk d "targets" in
  if ok then
    targetConfig ← assertList (Get d "targets");
    expandAwsSsmTargets targetConfig
  else mret None.

(** [if v, ok := d.GetOk("output_location"); ok { ... }] *)
Definition getOkOutputLocation (d : ResourceData)
    : outcome (option InstanceAssociationOutputLocation) :=
  let '(v, ok) := GetOk d "output_location" in
  if ok then
    config ← assertList v;
    expandSSMAssociationOutputLocation (Some config)
  else mret None.

(** The request [resourceAwsSsmAssociationCreate] hands to the service. *)
Definition createAssociationInput (d : ResourceData)
    : outcome CreateAssociationInput.t :=
  name ← assertString (Get d "name");
  associationName ← getOkString d "association_name";
  instanceId ← getOkString d "instance_id";
  documentVersion ← getOkString d "document_version";
  scheduleExpression ← getOkString d "schedule_expression";
  parameters ← getOkParameters d;
  targets ← getOkTargets d;
  outputLocation ← getOkOutputLocation d;
  mret {| CreateAssociationInput.Name := Some name;
          CreateAssociationInput.AssociationName := associationName;
          CreateAssociationInput.InstanceId := instanceId;
          CreateAssociationInput.DocumentVersion := documentVersion;
          CreateAssociationInput.ScheduleExpression := scheduleExpression;
          CreateAssociationInput.Parameters := parameters;
          CreateAssociationInput.Targets := targets;
          CreateAssociationInput.OutputLocation := outputLocation |}.

(** The six [d.HasChange] tests of [resourceAwsSsmAssociationUpdate]. *)
Definition hasChanges (d : ResourceData) : bool :=
  let hasChanges := false in
  let hasChanges := if HasChange d "association_name" then true else hasChanges in
  let hasChanges := if HasChange d "document_version" then true else hasChanges in
  let hasChanges := if HasChange d "schedule_expression" then true else hasChanges in
  let hasChanges := if HasChange d "parameters" then true else hasChanges in
  let hasChanges := if HasChange d "output_location" then true else hasChanges in
  let hasChanges := if HasChange d "targets" then true else hasChanges in
  hasChanges.

(** The request [resourceAwsSsmAssociationUpdate] hands to the service. *)
Definition updateAssociationInput (d : ResourceData)
    : outcome UpdateAssociationInput.t :=
  associationId ← assertString (Get d "association_id");
  if hasChanges d then
    associationName ← getOkString d "association_name";
    documentVersion ← getOkString d "document_version";
    scheduleExpression ← getOkString d "schedule_expression";
    parameters ← getOkParameters d;
    targets ← getOkTargets d;
    outputLocation ← getOkOutputLocation d;
    mret {| UpdateAssociationInput.AssociationId := Some associationId;
            UpdateAssociationInput.AssociationName := associationName;
            UpdateAssociationInput.DocumentVersion := documentVersion;
            UpdateAssociationInput.ScheduleExpression := scheduleExpression;
            UpdateAssociationInput.Parameters := parameters;
            UpdateAssociationInput.Targets := targets;
            UpdateAssociationInput.OutputLocation := outputLocation |}
  else
    mret {| UpdateAssociationInput.AssociationId := Some associationId;
            UpdateAssociationInput.AssociationName := None;
            UpdateAssociationInput.DocumentVersion := None;
            UpdateAssociationInput.ScheduleExpression := None;
            UpdateAssociationInput.Parameters := None;
            UpdateAssociationInput.Targets := None;
            UpdateAssociationInput.OutputLocation := None |}.

Section Lifecycle.
Context {World : Type} (ssmconn : SSM World).

(** What a lifecycle operation leaves behind: the record, the returned
    error and the remote side. *)
Definition result : Type := ResourceData * option error * Remote World.

Definition issue {I O : Type} (op : I → World → (error + O) * World)
    (log : I → Call) (input : I) (r : Remote World)
    : (error + O) * Remote World :=
  let '(resp, w) := op input (world r) in
  (resp, {| world := w; calls := calls r ++ [log input] |}).

Definition resourceAwsSsmAssociationRead (d : ResourceData)
    (r : Remote World) : outcome result :=
  let params := {| DescribeAssociationInput.AssociationId := Some (Id d) |} in
  let '(resp, r) :=
    issue (DescribeAssociation ssmconn) CallDescribeAssociation params r in
  match resp with
  | inl err =>
      if isAWSErr err ErrCodeAssociationDoesNotExist "" then
        mret (SetId "" d, None, r)
      else
        mret (d, Some (Errorf_s "[ERROR] Error reading SSM association: " err), r)
  | inr resp =>
      match AssociationDescription resp with
      | None =>
          mret (d, Some (errorString "[ERROR] AssociationDescription was nil"), r)
      | Some association =>
          let d := (Set_ "association_name"
                      (ptrValue (AssociationDescription.AssociationName association)) d).1 in
          let d := (Set_ "instance_id"
                      (ptrValue (AssociationDescription.InstanceId association)) d).1 in
          let d := (Set_ "name"
                      (ptrValue (AssociationDescription.Name association)) d).1 in
          let d := (Set_ "parameters"
                      (parametersValue (AssociationDescription.Parameters association)) d).1 in
          let d := (Set_ "association_id"
                      (ptrValue (AssociationDescription.AssociationId association)) d).1 in
          let d := (Set_ "schedule_expression"
                      (ptrValue (AssociationDescription.ScheduleExpression association)) d).1 in
          let d := (Set_ "document_version"
                      (ptrValue (AssociationDescription.DocumentVersion association)) d).1 in
          targets ← flattenAwsSsmTargets (AssociationDescription.Targets association);
          let '(d, err) := Set_ "targets" (blocksValue targets) d in
          match err with
          | Some err =>
              mret (d, Some (Errorf_v "[DEBUG] Error setting targets error: " err), r)
          | None =>
              location ← flattenAwsSsmAssociationOutoutLocation
                           (AssociationDescription.OutputLocation association);
              let '(d, err) := Set_ "output_location" (blocksValue location) d in
              match err with
              | Some err =>
                  mret (d, Some (Errorf_v "[DEBUG] Error setting output_location error: " err), r)
              | None => mret (d, None, r)
              end
          end
      end
  end.

Definition resourceAwsSsmAssociationCreate (d : ResourceData)
    (r : Remote World) : outcome result :=
  associationInput ← createAssociationInput d;
  let '(resp, r) :=
    issue (CreateAssociation ssmconn) CallCreateAssociation associationInput r in
  match resp with
  | inl err =>
      mret (d, Some (Errorf_s "[ERROR] Error creating SSM association: " err), r)
  | inr resp =>
      match AssociationDescription resp with
      | None =>
          mret (d, Some (errorString "[ERROR] AssociationDescription was nil"), r)
      | Some description =>
          id ← deref (AssociationDescription.AssociationId description);
          let d := SetId id d in
          let d := (Set_ "association_id"
                      (ptrValue (AssociationDescription.AssociationId description)) d).1 in
          resourceAwsSsmAssociationRead d r
      end
  end.

Definition resourceAwsSsmAssociationUpdate (d : ResourceData)
    (r : Remote World) : outcome result :=
  associationInput ← updateAssociationInput d;
  let '(resp, r) :=
    issue (UpdateAssociation ssmconn) CallUpdateAssociation associationInput r in
  match resp with
  | inl err =>
      mret (d, Some (Errorf_s "[ERROR] Error updating SSM association: " err), r)
  | inr _ => resourceAwsSsmAssociationRead d r
  end.

Definition resourceAwsSsmAssociationDelete (d : ResourceData)
    (r : Remote World) : outcome result :=
  associationId ← assertString (Get d "association_id");
  let params := {| DeleteAssociationInput.AssociationId := Some associationId |} in
  let '(resp, r) :=
    issue (DeleteAssociation ssmconn) CallDeleteAssociation params r in
  match resp with
  | inl err =>
      mret (d, Some (Errorf_s "[ERROR] Error deleting SSM association: " err), r)
  | inr _ => mret (d, None, r)
  end.

End Lifecycle.

(** * Vocabulary of the properties *)

(** What the remote side receives for one declared parameter value. *)
Definition singleValue (v : string) : list (option string) := [Some v].

(** The declared keys of an output-location block. *)
Definition validBlock (b : gmap string Value) : Prop :=
  (∃ bucket, b !! "s3_bucket_name" = Some (VString bucket))
  ∧ (b !! "s3_key_prefix" = None
     ∨ ∃ prefix, b !! "s3_key_prefix" = Some (VString prefix))
  ∧ ∀ k, is_Some (b !! k) → k = "s3_bucket_name" ∨ k = "s3_key_prefix".

(** A remote output location the flatten converter can read. *)
Definition flattenPrecondition
    (location : option InstanceAssociationOutputLocation) : Prop :=
  match location with
  | None => True
  | Some loc =>
      match S3Location loc with
      | Some s3 => is_Some (OutputS3BucketName s3)
      | None => False
      end
  end.

(** A [[]map[string]interface{}] handed over as a [[]interface{}]. *)
Definition asInterfaces (r : option (list (gmap string Value)))
    : option (list Value) :=
  match r with
  | Some l => Some (VMap <$> l)
  | None => None
  end.

(** The round trip composes the two converters. *)
Definition flatten_expand (x : option (list Value))
    : outcome (option (list Value)) :=
  y ← expandSSMAssociationOutputLocation x;
  r ← flattenAwsSsmAssociationOutoutLocation y;
  mret (asInterfaces r).

Definition expand_flatten (y : option InstanceAssociationOutputLocation)
    : outcome (option InstanceAssociationOutputLocation) :=
  r ← flattenAwsSsmAssociationOutoutLocation y;
  expandSSMAssociationOutputLocation (asInterfaces r).

(** The keys of the resource schema that are marked force-new. *)
Definition forceNewKeys : list string :=
  (map_to_list (ResourceSchema resourceAwsSsmAssociation)
     ≫= λ '(k, s), if ForceNew s then [k] else []).

(** The fields Update compares with their previously observed value. *)
Definition trackedFields : list string :=
  ["association_name"; "document_version"; "schedule_expression";
   "parameters"; "output_location"; "targets"].

(** A field is unchanged when the record reads as it did in the last
    observed state. *)
Definition unchanged (d : ResourceData) (key : string) : Prop :=
  readField (state d) key = Get d key.

(** The request that carries the identifier and nothing else. *)
Definition identifierOnly (id : string) : UpdateAssociationInput.t :=
  {| UpdateAssociationInput.AssociationId := Some id;
     UpdateAssociationInput.AssociationName := None;
     UpdateAssociationInput.DocumentVersion := None;
     UpdateAssociationInput.ScheduleExpression := None;
     UpdateAssociationInput.Parameters := None;
     UpdateAssociationInput.Targets := None;
     UpdateAssociationInput.OutputLocation := None |}.

(** Whether [d.GetOk(key)] reports the field as set. *)
Definition isSet (d : ResourceData) (key : string) : Prop :=
  (GetOk d key).2 = true.

(** A service that answers every call of one kind in the same way. *)
Definition stubSSM (create describe update : error + AssociationOutput)
    : SSM unit :=
  {| CreateAssociation := λ _ w, (create, w);
     DescribeAssociation := λ _ w, (describe, w);
     UpdateAssociation := λ _ w, (update, w);
     DeleteAssociation := λ _ w, (inr (), w) |}.

(** The descriptor of an association that has only a name. *)
Definition described (id : option string) (name : string)
    : AssociationOutput :=
  {| AssociationDescription :=
       Some {| AssociationDescription.AssociationId := id;
               AssociationDescription.AssociationName := None;
               AssociationDescription.InstanceId := None;
               AssociationDescription.Name := Some name;
               AssociationDescription.Parameters := None;
               AssociationDescription.ScheduleExpression := None;
               AssociationDescription.DocumentVersion := None;
               AssociationDescription.Targets := None;
               AssociationDescription.OutputLocation := None |} |}.

Definition notFound : error :=
  awsError "AssociationDoesNotExist" "no such association".

Definition throttled : error := awsError "ThrottlingException" "slow down".

Definition start : Remote unit := {| world := (); calls := [] |}.

(** The declared record [name = "doc1"], not created yet. *)
Definition doc1 : ResourceData :=
  {| Id := ""; state := ∅; fields := {[ "name" := VString "doc1" ]} |}.

Definition doc1Input : CreateAssociationInput.t :=
  {| CreateAssociationInput.Name := Some "doc1";
     CreateAssociationInput.AssociationName := None;
     CreateAssociationInput.InstanceId := None;
     CreateAssociationInput.DocumentVersion := None;
     CreateAssociationInput.ScheduleExpression := None;
     CreateAssociationInput.Parameters := None;
     CreateAssociationInput.Targets := None;
     CreateAssociationInput.OutputLocation := None |}.

(** A record of the association [assoc-1] with [observed] as the last
    observed fields and [declared] as the current ones. *)
Definition managed (observed declared : gmap string Value) : ResourceData :=
  {| Id := "assoc-1";
     state := <["association_id" := VString "assoc-1"]> observed;
     fields := <["association_id" := VString "assoc-1"]> declared |}.

Definition missing : ResourceData :=
  {| Id := "assoc-missing";
     state := {[ "name" := VString "doc1" ]};
     fields := {[ "name" := VString "doc1" ]} |}.

(** The record of [assoc-1] with nothing to change, and the same record
    once a schedule has been declared. *)
Definition settled : ResourceData := managed ∅ ∅.

Definition rescheduled : ResourceData :=
  managed ∅ {[ "schedule_expression" := VString "rate(1 day)" ]}.

Definition rescheduledInput : UpdateAssociationInput.t :=
  {| UpdateAssociationInput.AssociationId := Some "assoc-1";
     UpdateAssociationInput.AssociationName := None;
     UpdateAssociationInput.DocumentVersion := None;
     UpdateAssociationInput.ScheduleExpression := Some "rate(1 day)";
     UpdateAssociationInput.Parameters := None;
     UpdateAssociationInput.Targets := None;
     UpdateAssociationInput.OutputLocation := None |}.

(** The remote side once a call has been answered from world [w]. *)
Definition afterCall {World : Type} (r : Remote World) (w : World) (c : Call)
    : Remote World :=
  {| world := w; calls := calls r ++ [c] |}.

(** The request Read sends for a record. *)
Definition describeById (d : ResourceData) : DescribeAssociationInput.t :=
  {| DescribeAssociationInput.AssociationId := Some (Id d) |}.

(** The response without a descriptor. *)
Definition nilDescription : AssociationOutput :=
  {| AssociationDescription := None |}.

(** ** Vocabulary of the further properties *)

(** The keys an output-location block declares. *)
Definition declaredOutputLocationKey (k : string) : Prop :=
  k = "s3_bucket_name" ∨ k = "s3_key_prefix".

(** A block cut down to its declared keys. *)
Definition declaredBlock (b : gmap string Value) : gmap string Value :=
  filter (λ kv, declaredOutputLocationKey kv.1) b.

(** The remote output location with the given bucket and key prefix, and no
    region. *)
Definition remoteOutputLocation (bucket : string) (prefix : option string)
    : InstanceAssociationOutputLocation :=
  {| S3Location := Some {| OutputS3BucketName := Some bucket;
                           OutputS3KeyPrefix := prefix;
                           OutputS3Region := None |} |}.

(** The block with the given bucket and key prefix. *)
Definition flatBlock (bucket : string) (prefix : option string)
    : gmap string Value :=
  match prefix with
  | Some p =>
      <["s3_key_prefix" := VString p]>
        (<["s3_bucket_name" := VString bucket]> (∅ : gmap string Value))
  | None => <["s3_bucket_name" := VString bucket]> (∅ : gmap string Value)
  end.

(** The fields the schema declares inside an [output_location] block. *)
Definition outputLocationFields : gmap string Schema :=
  match ResourceSchema resourceAwsSsmAssociation !! "output_location" with
  | Some s =>
      match Elem s with
      | ElemResource fields => fields
      | _ => ∅
      end
  | None => ∅
  end.

(** The [range] loop of [expandSSMDocumentParameters] run over the entries
    of the map in a given order, the head of the list first. *)
Definition rangeLoop (entries : list (string * Value))
    : outcome (gmap string (list (option string))) :=
  foldl (λ acc kv, expandSSMDocumentParameters_step kv.1 kv.2 acc) (mret ∅)
        entries.

(** The request Delete sends for an identifier. *)
Definition deleteById (id : string) : DeleteAssociationInput.t :=
  {| DeleteAssociationInput.AssociationId := Some id |}.

(** A service on which deleting fails with [cause]. *)
Definition failingDeleteSSM (cause : error) : SSM unit :=
  {| CreateAssociation := λ _ w, (inl cause, w);
     DescribeAssociation := λ _ w, (inl cause, w);
     UpdateAssociation := λ _ w, (inl cause, w);
     DeleteAssociation := λ _ w, (inl cause, w) |}.

(** The descriptor of [assoc-1] with an output location. *)
Definition describedAt (location : option InstanceAssociationOutputLocation)
    : AssociationOutput :=
  {| AssociationDescription :=
       Some {| AssociationDescription.AssociationId := Some "assoc-1";
               AssociationDescription.AssociationName := None;
               AssociationDescription.InstanceId := None;
               AssociationDescription.Name := Some "doc1";
               AssociationDescription.Parameters := None;
               AssociationDescription.ScheduleExpression := None;
               AssociationDescription.DocumentVersion := None;
               AssociationDescription.Targets := None;
               AssociationDescription.OutputLocation := location |} |}.

Definition loggedBlock : gmap string Value :=
  {[ "s3_bucket_name" := VString "logs"; "s3_key_prefix" := VString "ssm/" ]}.

Definition noisyBlock : gmap string Value :=
  <["region" := VString "eu-west-1"]> loggedBlock.

Definition strayBlock : Value :=
  VMap {[ "s3_bucket_name" := VString "other" ]}.

Definition commands : gmap string Value :=
  {[ "commands" := VString "uptime"; "workingDirectory" := VString "/tmp" ]}.

(** Every optional field of the record declared. *)
Definition declaredFields : gmap string Value :=
  {[ "name" := VString "doc1";
     "association_name" := VString "nightly";
     "schedule_expression" := VString "rate(1 day)";
     "parameters" := VMap commands;
     "targets" := VList [VMap {[ "key" := VString "InstanceIds";
                                 "values" := VList [VString "i-0123"] ]}];
     "output_location" := VList [VMap loggedBlock] ]}.

Definition declared : ResourceData := managed ∅ declaredFields.

Definition declaredInput : CreateAssociationInput.t :=
  {| CreateAssociationInput.Name := Some "doc1";
     CreateAssociationInput.AssociationName := Some "nightly";
     CreateAssociationInput.InstanceId := None;
     CreateAssociationInput.DocumentVersion := None;
     CreateAssociationInput.ScheduleExpression := Some "rate(1 day)";
     CreateAssociationInput.Parameters :=
       Some {[ "commands" := [Some "uptime"];
               "workingDirectory" := [Some "/tmp"] ]};
     CreateAssociationInput.Targets :=
       Some [{| Key := Some "InstanceIds"; Values := [Some "i-0123"] |}];
     CreateAssociationInput.OutputLocation :=
       Some (remoteOutputLocation "logs" (Some "ssm/")) |}.

(** The record of [assoc-1] whose schedule was observed and is no longer
    declared. *)
Definition unscheduled : ResourceData :=
  managed {[ "schedule_expression" := VString "rate(1 day)" ]} ∅.

(** The record of [assoc-1] as Read leaves it after [describedAt None]. *)
Definition refreshed : ResourceData :=
  {| Id := "assoc-1";
     state := {[ "association_id" := VString "assoc-1" ]};
     fields := {[ "association_id" := VString "assoc-1";
                  "name" := VString "doc1" ]} |}.

(** A record whose [output_location] holds a string where a block is due. *)
Definition malformed : ResourceData :=
  managed ∅ {[ "output_location" := VList [VString "logs"] ]}.

(** The region a remote output location carries, if any. *)
Definition remoteRegion (y : InstanceAssociationOutputLocation)
    : option string :=
  match S3Location y with
  | Some s3 => OutputS3Region s3
  | None => None
  end.

(** A remote output location with its region cleared. *)
Definition withoutRegion (y : InstanceAssociationOutputLocation)
    : InstanceAssociationOutputLocation :=
  {| S3Location :=
       match S3Location y with
       | Some s3 =>
           Some {| OutputS3BucketName := OutputS3BucketName s3;
                   OutputS3KeyPrefix := OutputS3KeyPrefix s3;
                   OutputS3Region := None |}
       | None => None
       end |}.

(** A declared output location the converters are given: no list, or the
    list of one block with its declared keys. *)
Definition validDeclared (x : option (list Value)) : Prop :=
  x = None ∨ ∃ b, x = Some [VMap b] ∧ validBlock b.

(** A remote output location the expand converter can build: it has a
    bucket name and no region. *)
Definition validRemote (y : InstanceAssociationOutputLocation) : Prop :=
  flattenPrecondition (Some y) ∧ remoteRegion y = None.

(** A remote output location that names the region of its bucket. *)
Definition regional : InstanceAssociationOutputLocation :=
  {| S3Location := Some {| OutputS3BucketName := Some "logs";
                           OutputS3KeyPrefix := None;
                           OutputS3Region := Some "eu-west-1" |} |}.

(** * Properties *)

(** ** The panic monad *)

Lemma bind_Done {A B} (c : outcome A) (f : A → outcome B) (b : B) :
  c ≫= f = Done b ↔ ∃ a, c = Done a ∧ f a = Done b.
Proof.
  destruct c as [a|p]; simpl; split.
  - intros H. by exists a.
  - by intros (a' & [= <-] & H).
  - intros H. discriminate H.
  - intros (a' & H & _). discriminate H.
Qed.

Lemma panics_false_Done {A} (c : outcome A) :
  panics c = false ↔ ∃ a, c = Done a.
Proof.
  destruct c as [a|p]; simpl; split; try done.
  - intros _. by exists a.
  - intros [a H]. discriminate H.
Qed.


(** ** Parameters expand *)

Lemma expandSSMDocumentParameters_fold (params : gmap string Value) :
  ∀ m : gmap string string,
    params = VString <$> m →
    expandSSMDocumentParameters params = Done (singleValue <$> m).
Proof.
  unfold expandSSMDocumentParameters.
  apply (map_fold_weak_ind
           (λ r (params : gmap string Value),
              ∀ m : gmap string string,
                params = VString <$> m → r = Done (singleValue <$> m))).
  - intros m Hm. symmetry in Hm. apply fmap_empty_inv in Hm. subst m.
    by rewrite fmap_empty.
  - intros k v params' r Hk IH m Hm.
    assert (Hv : (VString <$> m) !! k = Some v)
      by (rewrite <- Hm; apply lookup_insert_eq).
    apply lookup_fmap_Some in Hv as (s & <- & Hs).
    assert (Hparams : params' = VString <$> delete k m).
    { rewrite fmap_delete, <- Hm. symmetry. by apply delete_insert_id. }
    rewrite (IH _ Hparams). unfold expandSSMDocumentParameters_step. simpl.
    f_equal. change [Some s] with (singleValue s).
    rewrite <- fmap_insert. f_equal. by apply insert_delete_id.
Qed.

(** C7. For every mapping [m] from string keys to string values, the
    parameters expand converter returns the mapping with the same key set
    that sends every key [k] to the single-element sequence [[m[k]]]; the
    empty mapping is sent to the empty mapping. *)
Theorem expandSSMDocumentParameters_single_values (m : gmap string string) :
  expandSSMDocumentParameters (VString <$> m) = Done (singleValue <$> m)
  ∧ dom (singleValue <$> m) = dom m
  ∧ (∀ k : string, (singleValue <$> m) !! k = (λ v, [Some v]) <$> m !! k)
  ∧ expandSSMDocumentParameters (VString <$> (∅ : gmap string string)) = Done ∅.
Proof.
  split; [by apply expandSSMDocumentParameters_fold|].
  split; [by apply dom_fmap_L|].
  split; [intros k; by rewrite lookup_fmap|].
  rewrite (expandSSMDocumentParameters_fold _ ∅ eq_refl). by rewrite fmap_empty.
Qed.

(** A value that is not a string aborts the conversion. *)
Lemma expandSSMDocumentParameters_not_string (k : string) (v : Value) :
  (∀ s, v ≠ VString s) →
  panics (expandSSMDocumentParameters {[ k := v ]}) = true.
Proof.
  intros Hv. unfold expandSSMDocumentParameters.
  rewrite map_fold_singleton. unfold expandSSMDocumentParameters_step. simpl.
  destruct v as [|s| |]; try done. by destruct (Hv s).
Qed.

(** ** Output-location expand and flatten *)

Lemma expandSSMAssociationOutputLocation_nil :
  expandSSMAssociationOutputLocation None = Done None.
Proof. done. Qed.

(** C2, as the claim has it, fails: called on the empty, non-nil list of
    blocks the expand converter indexes the first element and aborts with an
    index-out-of-range panic; only the nil list is turned into no remote
    object. *)
Theorem expandSSMAssociationOutputLocation_empty_list :
  expandSSMAssociationOutputLocation (Some []) = Panic IndexOutOfRange
  ∧ panics (expandSSMAssociationOutputLocation (Some [])) = true
  ∧ expandSSMAssociationOutputLocation None = Done None.
Proof. done. Qed.


Lemma flatten_expand_nil : flatten_expand None = Done None.
Proof. done. Qed.

Lemma flatten_expand_block (b : gmap string Value) :
  validBlock b → flatten_expand (Some [VMap b]) = Done (Some [VMap b]).
Proof.
  intros ([bucket Hb] & Hp & Hdom). unfold flatten_expand. simpl.
  unfold mapIndex. rewrite Hb. simpl.
  assert (Hkeys : ∀ (b' : gmap string Value),
             b' !! "s3_bucket_name" = b !! "s3_bucket_name" →
             b' !! "s3_key_prefix" = b !! "s3_key_prefix" →
             (∀ k, is_Some (b' !! k) → k = "s3_bucket_name" ∨ k = "s3_key_prefix") →
             b' = b).
  { intros b' H1 H2 H3. apply map_eq. intros k.
    destruct (decide (k = "s3_bucket_name")) as [->|Hk1]; [done|].
    destruct (decide (k = "s3_key_prefix")) as [->|Hk2]; [done|].
    destruct (b' !! k) as [v'|] eqn:E'; destruct (b !! k) as [v|] eqn:E; try done.
    - destruct (H3 k); [by rewrite E'|done|done].
    - destruct (H3 k); [by rewrite E'|done|done].
    - destruct (Hdom k); [by rewrite E|done|done]. }
  destruct Hp as [Hp|[prefix Hp]]; rewrite Hp; simpl; do 4 f_equal.
  - apply Hkeys.
    + by rewrite lookup_insert_eq.
    + by rewrite lookup_insert_ne, lookup_empty.
    + intros k [v Hv]. apply lookup_insert_Some in Hv as [[<- _]|[_ Hv]]; [by left|].
      by rewrite lookup_empty in Hv.
  - apply Hkeys.
    + by rewrite lookup_insert_ne, lookup_insert_eq.
    + by rewrite lookup_insert_eq.
    + intros k [v Hv]. apply lookup_insert_Some in Hv as [[<- _]|[_ Hv]]; [by right|].
      apply lookup_insert_Some in Hv as [[<- _]|[_ Hv]]; [by left|].
      by rewrite lookup_empty in Hv.
Qed.

Lemma expand_flatten_valid (y : InstanceAssociationOutputLocation) :
  validRemote y → expand_flatten (Some y) = Done (Some y).
Proof.
  unfold validRemote, remoteRegion.
  destruct y as [[[[bucket|] [prefix|] [region|]]|]]; simpl;
    intros [Hpre Hregion]; try done; by destruct Hpre.
Qed.

(** C3, as the code has it. For every declared output location that is the
    nil list or one block with a bucket name and an optional key prefix,
    flattening the expanded value gives the value back; and for every remote
    output location with an S3 location, a bucket name, an optional key
    prefix and no region, expanding the flattened value gives the value
    back. *)
Theorem output_location_round_trip :
  (∀ x, validDeclared x → flatten_expand x = Done x)
  ∧ (∀ y, validRemote y → expand_flatten (Some y) = Done (Some y)).
Proof.
  split.
  - intros x [->|(b & -> & Hb)].
    + apply flatten_expand_nil.
    + by apply flatten_expand_block.
  - apply expand_flatten_valid.
Qed.

Lemma output_location_round_trip_witness :
  flatten_expand
    (Some [VMap {[ "s3_bucket_name" := VString "logs";
                   "s3_key_prefix" := VString "ssm/" ]}])
  = Done (Some [VMap {[ "s3_bucket_name" := VString "logs";
                        "s3_key_prefix" := VString "ssm/" ]}])
  ∧ expand_flatten (Some (remoteOutputLocation "logs" (Some "ssm/")))
    = Done (Some (remoteOutputLocation "logs" (Some "ssm/"))).
Proof.
  destruct output_location_round_trip as [Hdeclared Hremote]. split.
  - apply Hdeclared. right. eexists. split; [reflexivity|].
    split; [by exists "logs"|]. split; [right; by exists "ssm/"|].
    intros k [v Hv].
    apply lookup_insert_Some in Hv as [[<- _]|[_ Hv]]; [by left|].
    apply lookup_singleton_Some in Hv as [<- _]. by right.
  - apply Hremote. split; [by exists "logs"|reflexivity].
Defined.

(** C3, as the claim has it, fails twice. The empty, non-nil list is a list
    of at most one block, and expanding it aborts before flatten runs. A
    remote output location that names a region has a bucket name and an
    optional key prefix, and expanding its flattened value gives back the
    location without the region. *)
Lemma output_location_round_trip_fails :
  flatten_expand (Some []) = Panic IndexOutOfRange
  ∧ flattenPrecondition (Some regional)
  ∧ expand_flatten (Some regional)
    = Done (Some (remoteOutputLocation "logs" None))
  ∧ expand_flatten (Some regional) ≠ Done (Some regional).
Proof.
  split; [reflexivity|]. split; [by exists "logs"|]. split; [reflexivity|].
  simpl. intros H. discriminate H.
Qed.

(** C10. The flatten converter returns exactly when a present remote output
    location has an S3 location with a bucket name; it then yields one block
    for a present location and the nil list for an absent one. *)
Theorem flattenAwsSsmAssociationOutoutLocation_total
    (location : option InstanceAssociationOutputLocation) :
  (panics (flattenAwsSsmAssociationOutoutLocation location) = false
   ↔ flattenPrecondition location)
  ∧ (flattenPrecondition location →
     match location with
     | None => flattenAwsSsmAssociationOutoutLocation location = Done None
     | Some _ =>
         ∃ item, flattenAwsSsmAssociationOutoutLocation location = Done (Some [item])
     end).
Proof.
  destruct location as [[[[[bucket|] prefix region]|]]|]; simpl.
  - split; [split; [intros _; by exists bucket|done]|].
    intros _. eexists. reflexivity.
  - split; [split; [done|by intros []]|by intros []].
  - split; [split; done|done].
  - split; [split; done|done].
Qed.

Lemma flattenAwsSsmAssociationOutoutLocation_total_witness :
  ∃ item,
    flattenAwsSsmAssociationOutoutLocation
      (Some {| S3Location :=
                 Some {| OutputS3BucketName := Some "bucket";
                         OutputS3KeyPrefix := None;
                         OutputS3Region := None |} |})
    = Done (Some [item]).
Proof.
  apply (proj2 (flattenAwsSsmAssociationOutoutLocation_total
                  (Some {| S3Location :=
                             Some {| OutputS3BucketName := Some "bucket";
                                     OutputS3KeyPrefix := None;
                                     OutputS3Region := None |} |}))).
  simpl. by exists "bucket".
Defined.

(** ** Schema *)

(** C8. The declared schema marks [name] and [instance_id] as force-new,
    bounds [targets] by five blocks and [output_location] by one block. *)
Theorem resourceAwsSsmAssociation_schema :
  let schema := ResourceSchema resourceAwsSsmAssociation in
  ForceNew <$> schema !! "name" = Some true
  ∧ ForceNew <$> schema !! "instance_id" = Some true
  ∧ (Type_ <$> schema !! "targets" = Some TypeList
     ∧ MaxItems <$> schema !! "targets" = Some 5%Z)
  ∧ (Type_ <$> schema !! "output_location" = Some TypeList
     ∧ MaxItems <$> schema !! "output_location" = Some 1%Z).
Proof. vm_compute. done. Qed.

(** No other field is force-new, so every tracked field of Update is
    changed in place. *)
Lemma forceNewKeys_are :
  list_to_set forceNewKeys =@{gset string} {[ "name"; "instance_id" ]}.
Proof. by vm_compute. Qed.

(** ** Errors *)

Lemma Contains_empty (s : string) : Contains s "" = true.
Proof. by destruct s. Qed.

Lemma isAWSErr_code (err : error) (code : string) :
  isAWSErr err code "" = true ↔ ∃ message, err = awsError code message.
Proof.
  destruct err as [c m|s]; simpl.
  - rewrite Contains_empty, andb_true_r, bool_decide_eq_true. split.
    + intros ->. by exists m.
    + by intros (m' & [= -> _]).
  - split; [done|]. by intros (m' & ?).
Qed.

(** ** Lifecycle *)

Lemma HasChange_false (d : ResourceData) (key : string) :
  HasChange d key = false ↔ unchanged d key.
Proof.
  unfold HasChange, unchanged. rewrite bool_decide_eq_false.
  split; [apply dec_stable|]. by intros ? ?.
Qed.

Lemma hasChanges_false (d : ResourceData) :
  hasChanges d = false ↔ Forall (unchanged d) trackedFields.
Proof.
  unfold hasChanges, trackedFields. rewrite !Forall_cons, Forall_nil.
  rewrite <- !HasChange_false.
  destruct (HasChange d "association_name"), (HasChange d "document_version"),
    (HasChange d "schedule_expression"), (HasChange d "parameters"),
    (HasChange d "output_location"), (HasChange d "targets"); simpl;
    (split; [intros H; try done; by repeat split|by intros (?&?&?&?&?&?&_)]).
Qed.





Lemma getOkOutputLocation_no_blocks (d : ResourceData) :
  Get d "output_location" = VList [] → getOkOutputLocation d = Done None.
Proof.
  intros Hget. unfold getOkOutputLocation, GetOk. rewrite Hget.
  change (zeroOf "output_location") with (VList []).
  by rewrite bool_decide_eq_false_2 by (intros H; by apply H).
Qed.

(** C2, as the code has it. On the nil list the expand converter evaluates
    and produces no remote output location. The empty list is not handed to
    it: for a record with zero configured blocks the test Create and Update
    put before the converter fails, the step evaluates without abort to no
    output location, and the request of Create and of Update carries no
    output location. *)
Theorem expandSSMAssociationOutputLocation_no_blocks :
  expandSSMAssociationOutputLocation None = Done None
  ∧ (∀ d : ResourceData,
       Get d "output_location" = VList [] →
       getOkOutputLocation d = Done None
       ∧ (∀ input, createAssociationInput d = Done input →
                   CreateAssociationInput.OutputLocation input = None)
       ∧ (∀ input, updateAssociationInput d = Done input →
                   UpdateAssociationInput.OutputLocation input = None)).
Proof.
  split; [reflexivity|]. intros d Hget.
  pose proof (getOkOutputLocation_no_blocks d Hget) as Hnone.
  split; [done|]. split.
  - intros input H. unfold createAssociationInput in H.
    apply bind_Done in H as (name & _ & H).
    apply bind_Done in H as (o1 & _ & H).
    apply bind_Done in H as (o2 & _ & H).
    apply bind_Done in H as (o3 & _ & H).
    apply bind_Done in H as (o4 & _ & H).
    apply bind_Done in H as (o5 & _ & H).
    apply bind_Done in H as (o6 & _ & H).
    apply bind_Done in H as (o7 & H7 & H).
    injection H as <-. simpl. congruence.
  - intros input H. unfold updateAssociationInput in H.
    apply bind_Done in H as (id & _ & H).
    destruct (hasChanges d); [|by injection H as <-].
    apply bind_Done in H as (o1 & _ & H).
    apply bind_Done in H as (o2 & _ & H).
    apply bind_Done in H as (o3 & _ & H).
    apply bind_Done in H as (o4 & _ & H).
    apply bind_Done in H as (o5 & _ & H).
    apply bind_Done in H as (o6 & H6 & H).
    injection H as <-. simpl. congruence.
Qed.

Section LifecycleProperties.
Context {World : Type} (ssmconn : SSM World).

Lemma issue_answer {I O : Type} (op : I → World → (error + O) * World)
    (log : I → Call) (input : I) (r : Remote World) resp w :
  op input (world r) = (resp, w) →
  issue op log input r = (resp, afterCall r w (log input)).
Proof. unfold issue. by intros ->. Qed.

(** C1. When the describe call of Read fails with the
    [AssociationDoesNotExist] code, Read clears the identifier and returns
    no error; on every other failure of the call it returns an error that
    carries the text of the cause. *)
Theorem resourceAwsSsmAssociationRead_error
    (d : ResourceData) (r : Remote World) (err : error) (w : World) :
  DescribeAssociation ssmconn (describeById d) (world r) = (inl err, w) →
  let r' := afterCall r w (CallDescribeAssociation (describeById d)) in
  ((∃ message, err = awsError "AssociationDoesNotExist" message) →
   resourceAwsSsmAssociationRead ssmconn d r = Done (SetId "" d, None, r')
   ∧ Id (SetId "" d) = "")
  ∧ ((¬ ∃ message, err = awsError "AssociationDoesNotExist" message) →
     resourceAwsSsmAssociationRead ssmconn d r
     = Done (d,
             Some (errorString
                     ("[ERROR] Error reading SSM association: " +:+ Error err)),
             r')).
Proof.
  intros Hcall r'. unfold resourceAwsSsmAssociationRead.
  rewrite (issue_answer _ _ _ _ _ _ Hcall).
  pose proof (isAWSErr_code err ErrCodeAssociationDoesNotExist) as Hcode.
  destruct (isAWSErr err ErrCodeAssociationDoesNotExist "").
  - split; [done|]. intros Hno. destruct Hno. by apply Hcode.
  - split; [|done]. intros Hyes. apply Hcode in Hyes. discriminate Hyes.
Qed.

(** C9. On the not-found path Read changes the identifier and nothing
    else: the stored state, the stored fields and what every field reads
    as are those of the record before the call. *)
Theorem resourceAwsSsmAssociationRead_not_found_frame
    (d : ResourceData) (r : Remote World) (message : string) (w : World) :
  DescribeAssociation ssmconn (describeById d) (world r)
  = (inl (awsError "AssociationDoesNotExist" message), w) →
  ∃ d' r',
    resourceAwsSsmAssociationRead ssmconn d r = Done (d', None, r')
    ∧ Id d' = ""
    ∧ state d' = state d
    ∧ fields d' = fields d
    ∧ (∀ key, Get d' key = Get d key)
    ∧ (∀ key, HasChange d' key = HasChange d key).
Proof.
  intros Hcall. unfold resourceAwsSsmAssociationRead.
  rewrite (issue_answer _ _ _ _ _ _ Hcall). simpl.
  rewrite Contains_empty. simpl. eexists _, _. by repeat split.
Qed.

(** C6. In Read and in Create, a successful call whose response has no
    descriptor ends the operation with the error
    [[ERROR] AssociationDescription was nil]; the record, its identifier
    included, is left as it was. *)
Theorem nil_description_is_terminal :
  (∀ (d : ResourceData) (r : Remote World) (w : World),
      DescribeAssociation ssmconn (describeById d) (world r)
      = (inr nilDescription, w) →
      resourceAwsSsmAssociationRead ssmconn d r
      = Done (d, Some (errorString "[ERROR] AssociationDescription was nil"),
              afterCall r w (CallDescribeAssociation (describeById d))))
  ∧ (∀ (d : ResourceData) (r : Remote World) (w : World)
       (input : CreateAssociationInput.t),
        createAssociationInput d = Done input →
        CreateAssociation ssmconn input (world r) = (inr nilDescription, w) →
        resourceAwsSsmAssociationCreate ssmconn d r
        = Done (d, Some (errorString "[ERROR] AssociationDescription was nil"),
                afterCall r w (CallCreateAssociation input)))
  ∧ Contains "[ERROR] AssociationDescription was nil"
             "AssociationDescription was nil" = true.
Proof.
  split; [|split; [|reflexivity]].
  - intros d r w Hcall. unfold resourceAwsSsmAssociationRead.
    by rewrite (issue_answer _ _ _ _ _ _ Hcall).
  - intros d r w input Hinput Hcall. unfold resourceAwsSsmAssociationCreate.
    rewrite Hinput. simpl.
    by rewrite (issue_answer _ _ _ _ _ _ Hcall).
Qed.

(** C5, as the code has it. When the create call succeeds and the response
    has a descriptor whose identifier is present, be it the empty string,
    that identifier becomes the identifier of the record and the value of
    [association_id], and Create continues as Read; when the response has
    no descriptor Create ends with an error and the record is left as it
    was. *)
Theorem resourceAwsSsmAssociationCreate_success
    (d : ResourceData) (r : Remote World) (w : World)
    (input : CreateAssociationInput.t) (resp : AssociationOutput) :
  createAssociationInput d = Done input →
  CreateAssociation ssmconn input (world r) = (inr resp, w) →
  let r' := afterCall r w (CallCreateAssociation input) in
  match AssociationDescription resp with
  | Some description =>
      ∀ id, AssociationDescription.AssociationId description = Some id →
        let d' := (Set_ "association_id" (VString id) (SetId id d)).1 in
        Id d' = id
        ∧ Get d' "association_id" = VString id
        ∧ resourceAwsSsmAssociationCreate ssmconn d r
          = resourceAwsSsmAssociationRead ssmconn d' r'
  | None =>
      resourceAwsSsmAssociationCreate ssmconn d r
      = Done (d, Some (errorString "[ERROR] AssociationDescription was nil"), r')
  end.
Proof.
  intros Hinput Hcall r'. unfold resourceAwsSsmAssociationCreate.
  rewrite Hinput. simpl. rewrite (issue_answer _ _ _ _ _ _ Hcall).
  destruct (AssociationDescription resp) as [description|]; [|done].
  intros id Hid. cbv zeta. rewrite Hid. simpl. split; [done|]. split; [|done].
  unfold Get, readField. simpl. by rewrite lookup_insert_eq.
Qed.


End LifecycleProperties.

(** ** Concrete runs *)

Example create_doc1 :
  resourceAwsSsmAssociationCreate
    (stubSSM (inr (described (Some "assoc-1") "doc1"))
             (inr (described (Some "assoc-1") "doc1")) (inl throttled))
    doc1 start
  = Done ({| Id := "assoc-1"; state := ∅;
             fields := {[ "name" := VString "doc1";
                          "association_id" := VString "assoc-1" ]} |},
          None,
          {| world := ();
             calls := [CallCreateAssociation doc1Input;
                       CallDescribeAssociation
                         {| DescribeAssociationInput.AssociationId :=
                              Some "assoc-1" |}] |}).
Proof. by vm_compute. Qed.

Lemma expandSSMAssociationOutputLocation_no_blocks_witness :
  Get doc1 "output_location" = VList []
  ∧ getOkOutputLocation doc1 = Done None
  ∧ CreateAssociationInput.OutputLocation doc1Input = None
  ∧ UpdateAssociationInput.OutputLocation (identifierOnly "") = None.
Proof.
  destruct expandSSMAssociationOutputLocation_no_blocks as [_ Hgate].
  destruct (Hgate doc1 eq_refl) as (Hstep & Hcreate & Hupdate).
  split; [reflexivity|]. split; [exact Hstep|]. split.
  - apply Hcreate. reflexivity.
  - apply Hupdate. reflexivity.
Defined.

Lemma resourceAwsSsmAssociationRead_error_witness :
  resourceAwsSsmAssociationRead
    (stubSSM (inl throttled) (inl notFound) (inl throttled)) missing start
  = Done (SetId "" missing, None,
          afterCall start () (CallDescribeAssociation (describeById missing)))
  ∧ resourceAwsSsmAssociationRead
      (stubSSM (inl throttled) (inl throttled) (inl throttled)) missing start
    = Done (missing,
            Some (errorString
                    "[ERROR] Error reading SSM association: ThrottlingException: slow down"),
            afterCall start () (CallDescribeAssociation (describeById missing))).
Proof.
  split.
  - apply (resourceAwsSsmAssociationRead_error
             (stubSSM (inl throttled) (inl notFound) (inl throttled))
             missing start notFound () eq_refl).
    by exists "no such association".
  - apply (resourceAwsSsmAssociationRead_error
             (stubSSM (inl throttled) (inl throttled) (inl throttled))
             missing start throttled () eq_refl).
    intros [message Hcode]. discriminate Hcode.
Defined.

Lemma resourceAwsSsmAssociationRead_not_found_frame_witness :
  ∃ d' r',
    resourceAwsSsmAssociationRead
      (stubSSM (inl throttled) (inl notFound) (inl throttled)) missing start
    = Done (d', None, r')
    ∧ Id d' = ""
    ∧ state d' = state missing
    ∧ fields d' = fields missing
    ∧ (∀ key, Get d' key = Get missing key)
    ∧ (∀ key, HasChange d' key = HasChange missing key).
Proof.
  apply (resourceAwsSsmAssociationRead_not_found_frame
           (stubSSM (inl throttled) (inl notFound) (inl throttled))
           missing start "no such association" ()).
  reflexivity.
Defined.

Lemma nil_description_is_terminal_witness :
  resourceAwsSsmAssociationRead
    (stubSSM (inr nilDescription) (inr nilDescription) (inl throttled))
    missing start
  = Done (missing, Some (errorString "[ERROR] AssociationDescription was nil"),
          afterCall start () (CallDescribeAssociation (describeById missing)))
  ∧ resourceAwsSsmAssociationCreate
      (stubSSM (inr nilDescription) (inr nilDescription) (inl throttled))
      doc1 start
    = Done (doc1, Some (errorString "[ERROR] AssociationDescription was nil"),
            afterCall start () (CallCreateAssociation doc1Input)).
Proof.
  destruct (nil_description_is_terminal
              (stubSSM (inr nilDescription) (inr nilDescription) (inl throttled)))
    as (HRead & HCreate & _).
  split.
  - apply HRead. reflexivity.
  - apply HCreate; reflexivity.
Defined.

Lemma resourceAwsSsmAssociationCreate_success_witness :
  let ssmconn := stubSSM (inr (described (Some "assoc-1") "doc1"))
                         (inr (described (Some "assoc-1") "doc1"))
                         (inl throttled) in
  let d' := (Set_ "association_id" (VString "assoc-1") (SetId "assoc-1" doc1)).1 in
  Id d' = "assoc-1"
  ∧ Get d' "association_id" = VString "assoc-1"
  ∧ resourceAwsSsmAssociationCreate ssmconn doc1 start
    = resourceAwsSsmAssociationRead ssmconn d'
        (afterCall start () (CallCreateAssociation doc1Input)).
Proof.
  exact (resourceAwsSsmAssociationCreate_success
           (stubSSM (inr (described (Some "assoc-1") "doc1"))
                    (inr (described (Some "assoc-1") "doc1"))
                    (inl throttled))
           doc1 start () doc1Input (described (Some "assoc-1") "doc1")
           eq_refl eq_refl "assoc-1" eq_refl).
Defined.

(** C5, as the claim has it, fails: a response whose descriptor carries the
    empty identifier does not make Create fail. Create adopts the empty
    identifier, continues as Read and returns no error. *)
Lemma resourceAwsSsmAssociationCreate_empty_identifier :
  let ssmconn := stubSSM (inr (described (Some "") "doc1")) (inl notFound)
                         (inl throttled) in
  createAssociationInput doc1 = Done doc1Input
  ∧ CreateAssociation ssmconn doc1Input (world start)
    = (inr (described (Some "") "doc1"), ())
  ∧ (∃ d' r', resourceAwsSsmAssociationCreate ssmconn doc1 start
              = Done (d', None, r'))
  ∧ ¬ (∃ d' err r', resourceAwsSsmAssociationCreate ssmconn doc1 start
                    = Done (d', Some err, r')).
Proof.
  cbv zeta. split; [reflexivity|]. split; [reflexivity|]. split.
  - eexists _, _. vm_compute. reflexivity.
  - intros (d' & err & r' & H). vm_compute in H. discriminate H.
Qed.

Example update_rescheduled :
  updateAssociationInput rescheduled = Done rescheduledInput.
Proof. by vm_compute. Qed.


(** * Further properties *)

Lemma expandSSMDocumentParameters_outcome (params : gmap string Value) :
  match expandSSMDocumentParameters params with
  | Done r =>
      ∃ m : gmap string string, params = VString <$> m ∧ r = singleValue <$> m
  | Panic p =>
      p = InterfaceConversion
      ∧ ∃ k v, params !! k = Some v ∧ ∀ s, v ≠ VString s
  end.
Proof.
  unfold expandSSMDocumentParameters.
  apply (map_fold_weak_ind
           (λ (r : outcome (gmap string (list (option string))))
              (params : gmap string Value),
              match r with
              | Done r =>
                  ∃ m : gmap string string,
                    params = VString <$> m ∧ r = singleValue <$> m
              | Panic p =>
                  p = InterfaceConversion
                  ∧ ∃ k v, params !! k = Some v ∧ ∀ s, v ≠ VString s
              end)).
  - exists ∅. by rewrite !fmap_empty.
  - intros k v params' r Hk IH. unfold expandSSMDocumentParameters_step.
    destruct r as [docParams|p]; simpl.
    + destruct IH as (m & -> & ->).
      destruct v as [|s|l|b]; simpl;
        try (split; [done|]; eexists k, _; split; [apply lookup_insert_eq|done]).
      exists (<[k:=s]> m). by rewrite !fmap_insert.
    + destruct IH as (-> & k' & v' & Hk' & Hv'). split; [done|].
      exists k', v'. split; [|done]. rewrite lookup_insert_ne; [done|].
      intros ->. congruence.
Qed.

(** X1. The parameters expand converter returns a result exactly when every
    value of the map is a string, and the result is then the map that sends
    each key to the one-element sequence of its value. *)
Theorem expandSSMDocumentParameters_Done_iff
    (params : gmap string Value) (r : gmap string (list (option string))) :
  expandSSMDocumentParameters params = Done r
  ↔ ∃ m : gmap string string, params = VString <$> m ∧ r = singleValue <$> m.
Proof.
  split.
  - intros H. pose proof (expandSSMDocumentParameters_outcome params) as Hout.
    by rewrite H in Hout.
  - intros (m & -> & ->). by apply expandSSMDocumentParameters_fold.
Qed.

(** X2. The parameters expand converter aborts exactly when some value of
    the map is not a string, and the abort is then a failed type
    assertion. *)
Theorem expandSSMDocumentParameters_panics_iff (params : gmap string Value) :
  (panics (expandSSMDocumentParameters params) = true
   ↔ ∃ k v, params !! k = Some v ∧ ∀ s, v ≠ VString s)
  ∧ (∀ p, expandSSMDocumentParameters params = Panic p → p = InterfaceConversion).
Proof.
  pose proof (expandSSMDocumentParameters_outcome params) as Hout.
  destruct (expandSSMDocumentParameters params) as [r|p]; simpl.
  - split; [|done]. split; [done|].
    destruct Hout as (m & -> & _). intros (k & v & Hk & Hv).
    apply lookup_fmap_Some in Hk as (s & <- & _). by destruct (Hv s).
  - destruct Hout as [-> Hex]. split; [done|]. by intros ? [= <-].
Qed.

Lemma expandSSMAssociationOutputLocation_Done
    (l : list Value) (o : option InstanceAssociationOutputLocation) :
  expandSSMAssociationOutputLocation (Some l) = Done o
  ↔ ∃ b rest bucket prefix,
      l = VMap b :: rest
      ∧ b !! "s3_bucket_name" = Some (VString bucket)
      ∧ b !! "s3_key_prefix" = VString <$> prefix
      ∧ o = Some (remoteOutputLocation bucket prefix).
Proof.
  unfold expandSSMAssociationOutputLocation, remoteOutputLocation. split.
  - intros H.
    apply bind_Done in H as (e & He & H).
    apply bind_Done in H as (b & Hmap & H).
    apply bind_Done in H as (bucket & Hbucket & H).
    apply bind_Done in H as (prefix & Hprefix & H).
    injection H as <-. destruct l as [|v rest]; [done|]. injection He as ->.
    destruct e as [| | |b']; try done. injection Hmap as ->.
    unfold mapIndex in Hbucket.
    destruct (b !! "s3_bucket_name") as [[|bucket'| |]|] eqn:Hb; try done.
    injection Hbucket as ->. exists b, rest, bucket, prefix.
    split; [done|]. split; [done|]. split; [|done].
    destruct (b !! "s3_key_prefix") as [v|]; [|by injection Hprefix as <-].
    apply bind_Done in Hprefix as (p & Hp & Hprefix).
    injection Hprefix as <-. destruct v; try done. by injection Hp as ->.
  - intros (b & rest & bucket & prefix & -> & Hb & Hp & ->). simpl.
    unfold mapIndex. rewrite Hb, Hp. simpl. by destruct prefix.
Qed.

Lemma flatten_remoteOutputLocation (bucket : string) (prefix : option string) :
  flattenAwsSsmAssociationOutoutLocation
    (Some (remoteOutputLocation bucket prefix))
  = Done (Some [flatBlock bucket prefix]).
Proof. by destruct prefix. Qed.

Lemma flatBlock_lookup (bucket : string) (prefix : option string)
    (k : string) (v : Value) :
  flatBlock bucket prefix !! k = Some v
  ↔ (k = "s3_bucket_name" ∧ v = VString bucket)
    ∨ (k = "s3_key_prefix" ∧ Some v = VString <$> prefix).
Proof.
  unfold flatBlock. destruct prefix as [p|]; simpl.
  - rewrite !lookup_insert_Some, lookup_empty. split.
    + intros [[<- <-]|[_ [[<- <-]|[_ ?]]]]; [by right|by left|done].
    + intros [[-> ->]|[-> [= ->]]]; [right; split; [done|by left]|by left].
  - rewrite lookup_insert_Some, lookup_empty. split.
    + intros [[<- <-]|[_ ?]]; [by left|done].
    + intros [[-> ->]|[_ ?]]; [by left|done].
Qed.

(** X5. The output-location expand converter reads the two declared keys
    of the first block and nothing else: further blocks and further keys do
    not change its outcome. *)
Theorem expandSSMAssociationOutputLocation_first_block_only
    (b b' : gmap string Value) (rest rest' : list Value) :
  b !! "s3_bucket_name" = b' !! "s3_bucket_name" →
  b !! "s3_key_prefix" = b' !! "s3_key_prefix" →
  expandSSMAssociationOutputLocation (Some (VMap b :: rest))
  = expandSSMAssociationOutputLocation (Some (VMap b' :: rest')).
Proof. intros H1 H2. simpl. unfold mapIndex. by rewrite H1, H2. Qed.

Lemma expandSSMAssociationOutputLocation_Panic (l : list Value) (p : panic) :
  expandSSMAssociationOutputLocation (Some l) = Panic p →
  (l = [] ∧ p = IndexOutOfRange) ∨ (l ≠ [] ∧ p = InterfaceConversion).
Proof.
  intros H. destruct l as [|v rest]; simpl in H.
  { left. by injection H as <-. }
  right. split; [done|].
  destruct v as [| | |b]; simpl in H; try by injection H as <-.
  unfold mapIndex in H.
  destruct (b !! "s3_bucket_name") as [[]|]; simpl in H; try by injection H as <-.
  destruct (b !! "s3_key_prefix") as [[]|]; simpl in H;
    try (by injection H as <-); discriminate H.
Qed.

(** X4. On a non-nil list the output-location expand converter returns
    exactly when the first element is a block whose [s3_bucket_name] is a
    string and whose [s3_key_prefix] is absent or a string; the key prefix of
    the result is set exactly when the block has the key, the empty string
    included. It aborts with index out of range on the empty list only, and
    with a failed type assertion otherwise. *)
Theorem expandSSMAssociationOutputLocation_well_formed (l : list Value) :
  (∀ o, expandSSMAssociationOutputLocation (Some l) = Done o
        ↔ ∃ b rest bucket prefix,
            l = VMap b :: rest
            ∧ b !! "s3_bucket_name" = Some (VString bucket)
            ∧ b !! "s3_key_prefix" = VString <$> prefix
            ∧ o = Some (remoteOutputLocation bucket prefix))
  ∧ (∀ p, expandSSMAssociationOutputLocation (Some l) = Panic p →
          (l = [] ∧ p = IndexOutOfRange) ∨ (l ≠ [] ∧ p = InterfaceConversion)).
Proof.
  split.
  - intros o. apply expandSSMAssociationOutputLocation_Done.
  - intros p. apply expandSSMAssociationOutputLocation_Panic.
Qed.

(** X6. Whatever the output-location expand converter returns, the flatten
    converter reads without a nil dereference. *)
Theorem flatten_accepts_expanded
    (x : option (list Value)) (y : option InstanceAssociationOutputLocation) :
  expandSSMAssociationOutputLocation x = Done y →
  flattenPrecondition y
  ∧ ∃ r, flattenAwsSsmAssociationOutoutLocation y = Done r.
Proof.
  destruct x as [l|]; intros H.
  - apply expandSSMAssociationOutputLocation_Done in H
      as (b & rest & bucket & prefix & _ & _ & _ & ->).
    split; [by exists bucket|]. rewrite flatten_remoteOutputLocation. eauto.
  - injection H as <-. split; [done|]. by exists None.
Qed.

(** X7. Whenever the output-location flatten converter returns, expanding
    its result gives the remote value it was given with the region cleared,
    the absent value for the absent one; the value itself is given back
    exactly when it names no region. *)
Theorem expand_after_flatten_clears_region
    (y : option InstanceAssociationOutputLocation)
    (r : option (list (gmap string Value))) :
  flattenAwsSsmAssociationOutoutLocation y = Done r →
  expandSSMAssociationOutputLocation (asInterfaces r)
  = Done (withoutRegion <$> y)
  ∧ (expandSSMAssociationOutputLocation (asInterfaces r) = Done y
     ↔ y ≫= remoteRegion = None).
Proof.
  destruct y as [[[[[bucket|] [prefix|] [region|]]|]]|]; simpl; intros H;
    try discriminate H; injection H as <-; (split; [reflexivity|]);
    split; intros H; try done; discriminate H.
Qed.

(** X8. Expanding and then flattening a list of blocks gives the first
    block cut down to its declared keys, and the nil list for the nil
    list. *)
Theorem flatten_expand_keeps_declared_keys
    (x x' : option (list Value)) :
  flatten_expand x = Done x' →
  match x with
  | None => x' = None
  | Some l => ∃ b rest, l = VMap b :: rest ∧ x' = Some [VMap (declaredBlock b)]
  end.
Proof.
  unfold flatten_expand. intros H.
  apply bind_Done in H as (y & Hy & H).
  apply bind_Done in H as (r & Hr & H). injection H as <-.
  destruct x as [l|].
  - apply expandSSMAssociationOutputLocation_Done in Hy
      as (b & rest & bucket & prefix & -> & Hb & Hp & ->).
    rewrite flatten_remoteOutputLocation in Hr. injection Hr as <-.
    exists b, rest. split; [done|]. simpl. do 3 f_equal.
    apply map_eq. intros k. apply option_eq. intros v.
    unfold declaredBlock. rewrite flatBlock_lookup, map_lookup_filter_Some.
    unfold declaredOutputLocationKey. simpl. split.
    + intros [[-> ->]|[-> Hv]]; (split; [|by auto]); [done|].
      by rewrite Hp.
    + intros [Hk [->| ->]]; [left|right]; (split; [done|]); [congruence|].
      by rewrite <- Hp.
  - injection Hy as <-. simpl in Hr. by injection Hr as <-.
Qed.

(** X9. Expanding and then flattening is idempotent: a value that came out
    of the round trip goes through it unchanged. *)
Theorem flatten_expand_idempotent (x x' : option (list Value)) :
  flatten_expand x = Done x' → flatten_expand x' = Done x'.
Proof.
  unfold flatten_expand at 1. intros H.
  apply bind_Done in H as (y & Hy & H).
  apply bind_Done in H as (r & Hr & H). injection H as <-.
  destruct x as [l|].
  - apply expandSSMAssociationOutputLocation_Done in Hy
      as (b & rest & bucket & prefix & _ & _ & _ & ->).
    rewrite flatten_remoteOutputLocation in Hr. injection Hr as <-.
    by destruct prefix.
  - injection Hy as <-. simpl in Hr. by injection Hr as <-.
Qed.

Lemma outputLocationFields_are :
  outputLocationFields
  = <["s3_bucket_name" := required (schemaOf TypeString)]>
      (<["s3_key_prefix" := optional (schemaOf TypeString)]> ∅).
Proof. reflexivity. Qed.

(** X10. Every key of a block written by the output-location flatten
    converter is declared in the schema of [output_location], and every
    required key of that schema is written. *)
Theorem flatten_writes_declared_keys
    (y : option InstanceAssociationOutputLocation)
    (l : list (gmap string Value)) :
  flattenAwsSsmAssociationOutoutLocation y = Done (Some l) →
  Forall (λ item : gmap string Value,
            (∀ k, is_Some (item !! k) → is_Some (outputLocationFields !! k))
            ∧ (∀ k s, outputLocationFields !! k = Some s →
                      Required s = true → is_Some (item !! k))) l.
Proof.
  destruct y as [[[[[bucket|] prefix region]|]]|]; simpl; intros H;
    try discriminate H.
  injection H as <-. apply Forall_cons_2; [|apply Forall_nil_2].
  change (match prefix with
          | Some p => <["s3_key_prefix":=VString p]> (<["s3_bucket_name":=VString bucket]> ∅)
          | None => <["s3_bucket_name":=VString bucket]> ∅
          end) with (flatBlock bucket prefix).
  rewrite outputLocationFields_are. split.
  - intros k [v Hv]. apply flatBlock_lookup in Hv as [[-> _]|[-> _]].
    + by rewrite lookup_insert_eq.
    + rewrite lookup_insert_ne, lookup_insert_eq; done.
  - intros k s Hk Hreq. exists (VString bucket). apply flatBlock_lookup. left.
    apply lookup_insert_Some in Hk as [[<- _]|[_ Hk]]; [done|].
    apply lookup_insert_Some in Hk as [[_ <-]|[_ Hk]]; [done|].
    by rewrite lookup_empty in Hk.
Qed.

Lemma getOkString_unset (d : ResourceData) (key : string) :
  ¬ isSet d key → getOkString d key = Done None.
Proof.
  unfold isSet, getOkString, GetOk. simpl. by destruct (bool_decide _).
Qed.

Lemma getOkParameters_unset (d : ResourceData) :
  ¬ isSet d "parameters" → getOkParameters d = Done None.
Proof.
  unfold isSet, getOkParameters, GetOk. simpl. by destruct (bool_decide _).
Qed.

Lemma getOkTargets_unset (d : ResourceData) :
  ¬ isSet d "targets" → getOkTargets d = Done None.
Proof.
  unfold isSet, getOkTargets, GetOk. simpl. by destruct (bool_decide _).
Qed.

Lemma getOkOutputLocation_unset (d : ResourceData) :
  ¬ isSet d "output_location" → getOkOutputLocation d = Done None.
Proof.
  unfold isSet, getOkOutputLocation, GetOk. simpl. by destruct (bool_decide _).
Qed.


(** X13. When some tracked field has changed, the request of Update carries
    the identifier and, for the six fields the two requests share, the very
    values the request of Create would carry for the same record. *)
Theorem updateAssociationInput_as_create
    (d : ResourceData) (id : string) (c : CreateAssociationInput.t) :
  ¬ Forall (unchanged d) trackedFields →
  Get d "association_id" = VString id →
  createAssociationInput d = Done c →
  updateAssociationInput d
  = Done {| UpdateAssociationInput.AssociationId := Some id;
            UpdateAssociationInput.AssociationName :=
              CreateAssociationInput.AssociationName c;
            UpdateAssociationInput.DocumentVersion :=
              CreateAssociationInput.DocumentVersion c;
            UpdateAssociationInput.ScheduleExpression :=
              CreateAssociationInput.ScheduleExpression c;
            UpdateAssociationInput.Parameters :=
              CreateAssociationInput.Parameters c;
            UpdateAssociationInput.Targets := CreateAssociationInput.Targets c;
            UpdateAssociationInput.OutputLocation :=
              CreateAssociationInput.OutputLocation c |}.
Proof.
  intros Hdiff Hid H.
  assert (Hchanged : hasChanges d = true).
  { destruct (hasChanges d) eqn:E; [done|].
    destruct Hdiff. by apply hasChanges_false. }
  unfold createAssociationInput in H.
  apply bind_Done in H as (name & Hname & H).
  apply bind_Done in H as (o1 & H1 & H).
  apply bind_Done in H as (o2 & H2 & H).
  apply bind_Done in H as (o3 & H3 & H).
  apply bind_Done in H as (o4 & H4 & H).
  apply bind_Done in H as (o5 & H5 & H).
  apply bind_Done in H as (o6 & H6 & H).
  apply bind_Done in H as (o7 & H7 & H).
  injection H as <-. unfold updateAssociationInput.
  rewrite Hid, Hchanged. simpl. by rewrite H1, H3, H4, H5, H6, H7.
Qed.

(** X14. When no tracked field is set, the request of Update carries the
    identifier alone, whether or not a field has changed: a field that was
    observed and is no longer declared is left out of the request. *)
Theorem updateAssociationInput_drops_unset (d : ResourceData) (id : string) :
  Get d "association_id" = VString id →
  Forall (λ key, ¬ isSet d key) trackedFields →
  updateAssociationInput d = Done (identifierOnly id).
Proof.
  intros Hid Hunset. unfold trackedFields in Hunset.
  rewrite !Forall_cons in Hunset.
  destruct Hunset as (H1 & H2 & H3 & H4 & H5 & H6 & _).
  unfold updateAssociationInput. rewrite Hid. simpl.
  destruct (hasChanges d); [|done].
  rewrite (getOkString_unset _ _ H1), (getOkString_unset _ _ H2),
    (getOkString_unset _ _ H3), (getOkParameters_unset _ H4),
    (getOkOutputLocation_unset _ H5), (getOkTargets_unset _ H6).
  done.
Qed.

Section MoreLifecycle.
Context {World : Type} (ssmconn : SSM World).

Lemma Done_triple_inj {A B C : Type} (a a' : A) (b b' : B) (c c' : C) :
  Done (a, b, c) = Done (a', b', c') → a = a' ∧ b = b' ∧ c = c'.
Proof. by intros [= -> -> ->]. Qed.

Lemma Done_bind {A B : Type} (a : A) (f : A → outcome B) : Done a ≫= f = f a.
Proof. reflexivity. Qed.

Lemma flatten_unreadable (y : option InstanceAssociationOutputLocation) :
  ¬ flattenPrecondition y →
  flattenAwsSsmAssociationOutoutLocation y = Panic NilDereference.
Proof.
  destruct y as [[[[[bucket|] prefix region]|]]|]; simpl; intros H; try done;
    destruct H; by eauto.
Qed.

Lemma calls_afterCall {W : Type} (r : Remote W) (w : W) (c : Call) :
  calls (afterCall r w c) = calls r ++ [c].
Proof. reflexivity. Qed.

Lemma Set__pair (key : string) (value : Value) (d : ResourceData) :
  Set_ key value d = ((Set_ key value d).1, None).
Proof. reflexivity. Qed.

Lemma Set__state (key : string) (value : Value) (d : ResourceData) :
  state (Set_ key value d).1 = state d.
Proof. reflexivity. Qed.

Lemma Set__Id (key : string) (value : Value) (d : ResourceData) :
  Id (Set_ key value d).1 = Id d.
Proof. reflexivity. Qed.

Lemma resourceAwsSsmAssociationRead_inv
    (d d' : ResourceData) (err : option error) (r r' : Remote World) :
  resourceAwsSsmAssociationRead ssmconn d r = Done (d', err, r') →
  state d' = state d
  ∧ (Id d' = Id d ∨ (Id d' = "" ∧ err = None))
  ∧ r' = afterCall r (DescribeAssociation ssmconn (describeById d) (world r)).2
           (CallDescribeAssociation (describeById d)).
Proof.
  unfold resourceAwsSsmAssociationRead.
  change {| DescribeAssociationInput.AssociationId := Some (Id d) |}
    with (describeById d).
  destruct (DescribeAssociation ssmconn (describeById d) (world r))
    as [resp w] eqn:Hcall.
  rewrite (issue_answer _ _ _ _ _ _ Hcall). cbv beta iota.
  destruct resp as [e|out].
  - destruct (isAWSErr e ErrCodeAssociationDoesNotExist "");
      intros [= <- <- <-]; auto.
  - destruct (AssociationDescription out) as [association|].
    + intros H. apply bind_Done in H as (targets & _ & H).
      rewrite (Set__pair "targets") in H. cbv beta iota in H.
      apply bind_Done in H as (location & _ & H).
      rewrite (Set__pair "output_location") in H. cbv beta iota in H.
      apply Done_triple_inj in H as (<- & <- & <-).
      rewrite !Set__state, !Set__Id. auto.
    + intros [= <- <- <-]. auto.
Qed.

(** X15. Whenever Read returns, it has issued the describe call for the
    identifier of the record and no other call, it has left the previously
    observed state alone, and the identifier is either unchanged or cleared
    with no error. *)
Theorem resourceAwsSsmAssociationRead_frame
    (d d' : ResourceData) (err : option error) (r r' : Remote World) :
  resourceAwsSsmAssociationRead ssmconn d r = Done (d', err, r') →
  state d' = state d
  ∧ (Id d' = Id d ∨ (Id d' = "" ∧ err = None))
  ∧ calls r' = calls r ++ [CallDescribeAssociation (describeById d)]
  ∧ world r' = (DescribeAssociation ssmconn (describeById d) (world r)).2.
Proof.
  intros H. apply resourceAwsSsmAssociationRead_inv in H as (Hs & Hid & ->).
  done.
Qed.

(** X17. When the create call fails, whatever the error code, Create
    returns the error with the text of the cause, leaves the record as it
    was and issues no describe call. *)
Theorem resourceAwsSsmAssociationCreate_remote_error
    (d : ResourceData) (r : Remote World) (w : World)
    (input : CreateAssociationInput.t) (err : error) :
  createAssociationInput d = Done input →
  CreateAssociation ssmconn input (world r) = (inl err, w) →
  resourceAwsSsmAssociationCreate ssmconn d r
  = Done (d,
          Some (errorString
                  ("[ERROR] Error creating SSM association: " +:+ Error err)),
          afterCall r w (CallCreateAssociation input)).
Proof.
  intros Hinput Hcall. unfold resourceAwsSsmAssociationCreate.
  rewrite Hinput. simpl. by rewrite (issue_answer _ _ _ _ _ _ Hcall).
Qed.

(** X20. When the update call fails, whatever the error code, Update
    returns the error with the text of the cause, leaves the record as it
    was and issues no describe call. *)
Theorem resourceAwsSsmAssociationUpdate_remote_error
    (d : ResourceData) (r : Remote World) (w : World)
    (input : UpdateAssociationInput.t) (err : error) :
  updateAssociationInput d = Done input →
  UpdateAssociation ssmconn input (world r) = (inl err, w) →
  resourceAwsSsmAssociationUpdate ssmconn d r
  = Done (d,
          Some (errorString
                  ("[ERROR] Error updating SSM association: " +:+ Error err)),
          afterCall r w (CallUpdateAssociation input)).
Proof.
  intros Hinput Hcall. unfold resourceAwsSsmAssociationUpdate.
  rewrite Hinput. simpl. by rewrite (issue_answer _ _ _ _ _ _ Hcall).
Qed.

(** X22. Delete issues one delete call, keyed by the [association_id]
    field, and leaves the record, identifier included, as it was; it returns
    the error of the call with the text of the cause, also when the
    association does not exist, and no error otherwise. *)
Theorem resourceAwsSsmAssociationDelete_outcome
    (d : ResourceData) (r : Remote World) (id : string) :
  Get d "association_id" = VString id →
  ∃ err,
    resourceAwsSsmAssociationDelete ssmconn d r
    = Done (d, err,
            afterCall r (DeleteAssociation ssmconn (deleteById id) (world r)).2
              (CallDeleteAssociation (deleteById id)))
    ∧ match (DeleteAssociation ssmconn (deleteById id) (world r)).1 with
      | inl cause =>
          err = Some (errorString
                        ("[ERROR] Error deleting SSM association: "
                           +:+ Error cause))
      | inr _ => err = None
      end.
Proof.
  intros Hid. unfold resourceAwsSsmAssociationDelete, issue. rewrite Hid. simpl.
  change {| DeleteAssociationInput.AssociationId := Some id |}
    with (deleteById id).
  destruct (DeleteAssociation ssmconn (deleteById id) (world r))
    as [[cause|[]] w]; simpl; eauto.
Qed.

(** X18. When the create call succeeds with a descriptor whose identifier
    is nil, Create aborts with a nil dereference. *)
Theorem resourceAwsSsmAssociationCreate_nil_identifier
    (d : ResourceData) (r : Remote World) (w : World)
    (input : CreateAssociationInput.t) (resp : AssociationOutput)
    (description : AssociationDescription.t) :
  createAssociationInput d = Done input →
  CreateAssociation ssmconn input (world r) = (inr resp, w) →
  AssociationDescription resp = Some description →
  AssociationDescription.AssociationId description = None →
  resourceAwsSsmAssociationCreate ssmconn d r = Panic NilDereference.
Proof.
  intros Hinput Hcall Hdesc Hid. unfold resourceAwsSsmAssociationCreate.
  rewrite Hinput. simpl. rewrite (issue_answer _ _ _ _ _ _ Hcall).
  by rewrite Hdesc, Hid.
Qed.

(** X19. Whenever Create returns, it has issued either the create call
    alone, the record then being unchanged and an error returned, or the
    create call followed by one describe call for the identifier the create
    call returned; the previously observed state is left alone. *)
Theorem resourceAwsSsmAssociationCreate_calls
    (d d' : ResourceData) (err : option error) (r r' : Remote World) :
  resourceAwsSsmAssociationCreate ssmconn d r = Done (d', err, r') →
  ∃ input,
    createAssociationInput d = Done input
    ∧ state d' = state d
    ∧ ((calls r' = calls r ++ [CallCreateAssociation input]
        ∧ d' = d ∧ is_Some err)
       ∨ (∃ resp description id,
            (CreateAssociation ssmconn input (world r)).1 = inr resp
            ∧ AssociationDescription resp = Some description
            ∧ AssociationDescription.AssociationId description = Some id
            ∧ calls r' = calls r ++ [CallCreateAssociation input;
                                     CallDescribeAssociation
                                       {| DescribeAssociationInput.AssociationId :=
                                            Some id |}]
            ∧ (Id d' = id ∨ Id d' = ""))).
Proof.
  unfold resourceAwsSsmAssociationCreate. intros H.
  apply bind_Done in H as (input & Hinput & H). exists input. split; [done|].
  destruct (CreateAssociation ssmconn input (world r)) as [answer w] eqn:Hcall.
  rewrite (issue_answer _ _ _ _ _ _ Hcall) in H. cbv beta iota in H.
  destruct answer as [e|resp].
  - apply Done_triple_inj in H as (<- & <- & <-).
    split; [done|]. left. by eauto.
  - destruct (AssociationDescription resp) as [description|] eqn:Hdesc.
    + apply bind_Done in H as (id & Hid & H).
      destruct (AssociationDescription.AssociationId description)
        as [id'|] eqn:Hid'; [|done].
      injection Hid as ->.
      apply resourceAwsSsmAssociationRead_inv in H as (Hs & HId & ->).
      rewrite Set__state in Hs. rewrite Set__Id in HId.
      unfold describeById. rewrite Set__Id.
      split; [done|]. right. exists resp, description, id.
      split; [done|]. split; [done|]. split; [done|]. split.
      * by rewrite !calls_afterCall, <- app_assoc.
      * destruct HId as [->|[-> _]]; auto.
    + apply Done_triple_inj in H as (<- & <- & <-).
      split; [done|]. left. by eauto.
Qed.

(** X21. Whenever Update returns, it has issued either the update call
    alone, the record then being unchanged and an error returned, or the
    update call followed by one describe call for the identifier of the
    record; the previously observed state is left alone. *)
Theorem resourceAwsSsmAssociationUpdate_calls
    (d d' : ResourceData) (err : option error) (r r' : Remote World) :
  resourceAwsSsmAssociationUpdate ssmconn d r = Done (d', err, r') →
  ∃ input,
    updateAssociationInput d = Done input
    ∧ state d' = state d
    ∧ ((calls r' = calls r ++ [CallUpdateAssociation input]
        ∧ d' = d ∧ is_Some err)
       ∨ (calls r' = calls r ++ [CallUpdateAssociation input;
                                 CallDescribeAssociation (describeById d)]
          ∧ (Id d' = Id d ∨ (Id d' = "" ∧ err = None)))).
Proof.
  unfold resourceAwsSsmAssociationUpdate. intros H.
  apply bind_Done in H as (input & Hinput & H). exists input. split; [done|].
  destruct (UpdateAssociation ssmconn input (world r)) as [answer w] eqn:Hcall.
  rewrite (issue_answer _ _ _ _ _ _ Hcall) in H. cbv beta iota in H.
  destruct answer as [e|resp].
  - apply Done_triple_inj in H as (<- & <- & <-).
    split; [done|]. left. by eauto.
  - apply resourceAwsSsmAssociationRead_inv in H as (Hs & HId & ->).
    split; [done|]. right. split; [|done].
    by rewrite !calls_afterCall, <- app_assoc.
Qed.

(** X16. When the descriptor of a successful describe call has an output
    location without an S3 location or without a bucket name, Read aborts
    with a nil dereference instead of returning an error. *)
Theorem resourceAwsSsmAssociationRead_unreadable_output_location
    (d : ResourceData) (r : Remote World) (w : World)
    (resp : AssociationOutput) (association : AssociationDescription.t) :
  DescribeAssociation ssmconn (describeById d) (world r) = (inr resp, w) →
  AssociationDescription resp = Some association →
  panics (flattenAwsSsmTargets (AssociationDescription.Targets association))
  = false →
  ¬ flattenPrecondition (AssociationDescription.OutputLocation association) →
  resourceAwsSsmAssociationRead ssmconn d r = Panic NilDereference.
Proof.
  intros Hcall Hdesc Htargets Hpre. unfold resourceAwsSsmAssociationRead.
  change {| DescribeAssociationInput.AssociationId := Some (Id d) |}
    with (describeById d).
  rewrite (issue_answer _ _ _ _ _ _ Hcall), Hdesc.
  destruct (flattenAwsSsmTargets (AssociationDescription.Targets association))
    as [targets|]; [|done].
  rewrite Done_bind, (Set__pair "targets"). cbv beta iota.
  by rewrite (flatten_unreadable _ Hpre).
Qed.

End MoreLifecycle.

Lemma rangeLoop_foldr (entries : list (string * Value)) :
  rangeLoop entries
  = foldr (λ kv acc, expandSSMDocumentParameters_step kv.1 kv.2 acc) (mret ∅)
          (reverse entries).
Proof.
  unfold rangeLoop. rewrite <- (reverse_involutive entries) at 1.
  generalize (reverse entries). intros l.
  induction l as [|kv l IH]; [done|].
  by rewrite reverse_cons, foldl_app, IH.
Qed.

Lemma foldr_step_outcome (entries : list (string * Value)) :
  NoDup entries.*1 →
  match foldr (λ kv acc, expandSSMDocumentParameters_step kv.1 kv.2 acc)
              (mret ∅) entries with
  | Done r =>
      ∃ m : gmap string string,
        list_to_map entries = VString <$> m ∧ r = singleValue <$> m
  | Panic p =>
      p = InterfaceConversion
      ∧ ∃ k v, (list_to_map entries : gmap string Value) !! k = Some v
               ∧ ∀ s, v ≠ VString s
  end.
Proof.
  induction entries as [|[k v] entries IH]; simpl.
  - intros _. exists ∅. by rewrite !fmap_empty.
  - intros Hnodup. apply NoDup_cons in Hnodup as [Hk Hnodup].
    specialize (IH Hnodup). apply not_elem_of_list_to_map_1 in Hk.
    unfold expandSSMDocumentParameters_step at 1.
    destruct (foldr _ _ entries) as [docParams|p]; simpl.
    + destruct IH as (m & Hm & ->).
      destruct v as [|s|l|b]; simpl;
        try (split; [done|]; eexists k, _; split; [apply lookup_insert_eq|done]).
      exists (<[k:=s]> m). by rewrite Hm, !fmap_insert.
    + destruct IH as (-> & k' & v' & Hk' & Hv'). split; [done|].
      exists k', v'. split; [|done]. rewrite lookup_insert_ne; [done|].
      intros ->. congruence.
Qed.

(** X3. In whatever order the [range] loop of the parameters expand
    converter visits the entries of the map, it returns the same result when
    it returns, and whether it aborts is the same; nothing is said of which
    offending value an abort reports. *)
Theorem expandSSMDocumentParameters_any_order
    (params : gmap string Value) (entries : list (string * Value)) :
  entries ≡ₚ map_to_list params →
  (∀ r, rangeLoop entries = Done r
        ↔ expandSSMDocumentParameters params = Done r)
  ∧ panics (rangeLoop entries) = panics (expandSSMDocumentParameters params).
Proof.
  intros Hperm.
  enough (Hsame : rangeLoop entries = expandSSMDocumentParameters params)
    by (by rewrite Hsame).
  rewrite rangeLoop_foldr.
  assert (Hrev : reverse entries ≡ₚ map_to_list params)
    by (by rewrite reverse_Permutation).
  assert (Hnodup : NoDup (reverse entries).*1).
  { rewrite Hrev. apply NoDup_fst_map_to_list. }
  assert (Hmap : list_to_map (reverse entries) = params).
  { rewrite <- (list_to_map_to_list params).
    by apply list_to_map_proper. }
  pose proof (foldr_step_outcome (reverse entries) Hnodup) as Hloop.
  pose proof (expandSSMDocumentParameters_outcome params) as Hfold.
  rewrite Hmap in Hloop.
  destruct (foldr _ _ (reverse entries)) as [r|p].
  - destruct Hloop as (m & -> & ->). symmetry.
    by apply expandSSMDocumentParameters_fold.
  - destruct Hloop as (-> & k & v & Hk & Hv).
    destruct (expandSSMDocumentParameters params) as [r'|p'].
    + destruct Hfold as (m & -> & _).
      apply lookup_fmap_Some in Hk as (s & <- & _). by destruct (Hv s).
    + by destruct Hfold as [-> _].
Qed.

(** X11. Behind the [GetOk] test of Create and Update the output-location
    expand converter never indexes an empty list: the only abort left is a
    failed type assertion. *)
Theorem getOkOutputLocation_never_out_of_range (d : ResourceData) (p : panic) :
  getOkOutputLocation d = Panic p → p = InterfaceConversion.
Proof.
  unfold getOkOutputLocation, GetOk. simpl.
  destruct (bool_decide _) eqn:Hok; [|done].
  apply bool_decide_eq_true in Hok.
  destruct (Get d "output_location") as [| |config|]; simpl;
    try by intros [= <-].
  intros H.
  destruct (expandSSMAssociationOutputLocation_Panic config p H)
    as [[-> _]|[_ ->]]; [|done].
  by destruct Hok.
Qed.

(** ** Further concrete runs *)

Lemma expandSSMDocumentParameters_any_order_witness :
  (∀ r, rangeLoop [("commands", VString "uptime");
                   ("workingDirectory", VString "/tmp")] = Done r
        ↔ expandSSMDocumentParameters commands = Done r)
  ∧ panics (rangeLoop [("commands", VString "uptime");
                       ("workingDirectory", VString "/tmp")])
    = panics (expandSSMDocumentParameters commands).
Proof.
  apply (expandSSMDocumentParameters_any_order commands).
  vm_compute. apply perm_swap.
Defined.

Lemma expandSSMAssociationOutputLocation_first_block_only_witness :
  expandSSMAssociationOutputLocation (Some [VMap noisyBlock; strayBlock])
  = expandSSMAssociationOutputLocation (Some [VMap loggedBlock]).
Proof.
  apply (expandSSMAssociationOutputLocation_first_block_only
           noisyBlock loggedBlock [strayBlock] []); reflexivity.
Defined.

Lemma flatten_accepts_expanded_witness :
  flattenPrecondition (Some (remoteOutputLocation "logs" (Some "ssm/")))
  ∧ ∃ r, flattenAwsSsmAssociationOutoutLocation
           (Some (remoteOutputLocation "logs" (Some "ssm/"))) = Done r.
Proof.
  apply (flatten_accepts_expanded (Some [VMap noisyBlock; strayBlock])).
  reflexivity.
Defined.

Lemma expand_after_flatten_clears_region_witness :
  expandSSMAssociationOutputLocation
    (asInterfaces (Some [flatBlock "logs" None]))
  = Done (withoutRegion <$> Some regional)
  ∧ (expandSSMAssociationOutputLocation
       (asInterfaces (Some [flatBlock "logs" None]))
     = Done (Some regional)
     ↔ Some regional ≫= remoteRegion = None).
Proof.
  apply (expand_after_flatten_clears_region (Some regional)). reflexivity.
Defined.

Lemma flatten_expand_keeps_declared_keys_witness :
  ∃ b rest,
    [VMap noisyBlock; strayBlock] = VMap b :: rest
    ∧ Some [VMap loggedBlock] = Some [VMap (declaredBlock b)].
Proof.
  apply (flatten_expand_keeps_declared_keys
           (Some [VMap noisyBlock; strayBlock]) (Some [VMap loggedBlock])).
  reflexivity.
Defined.

Lemma flatten_expand_idempotent_witness :
  flatten_expand (Some [VMap loggedBlock]) = Done (Some [VMap loggedBlock]).
Proof.
  apply (flatten_expand_idempotent (Some [VMap noisyBlock; strayBlock])).
  reflexivity.
Defined.

Lemma flatten_writes_declared_keys_witness :
  Forall (λ item : gmap string Value,
            (∀ k, is_Some (item !! k) → is_Some (outputLocationFields !! k))
            ∧ (∀ k s, outputLocationFields !! k = Some s →
                      Required s = true → is_Some (item !! k)))
         [flatBlock "logs" (Some "ssm/")].
Proof.
  apply (flatten_writes_declared_keys
           (Some (remoteOutputLocation "logs" (Some "ssm/")))).
  reflexivity.
Defined.

Lemma getOkOutputLocation_never_out_of_range_witness :
  getOkOutputLocation malformed = Panic InterfaceConversion
  ∧ InterfaceConversion = InterfaceConversion.
Proof.
  split; [reflexivity|].
  apply (getOkOutputLocation_never_out_of_range malformed). reflexivity.
Defined.


Lemma updateAssociationInput_as_create_witness :
  updateAssociationInput declared
  = Done {| UpdateAssociationInput.AssociationId := Some "assoc-1";
            UpdateAssociationInput.AssociationName :=
              CreateAssociationInput.AssociationName declaredInput;
            UpdateAssociationInput.DocumentVersion :=
              CreateAssociationInput.DocumentVersion declaredInput;
            UpdateAssociationInput.ScheduleExpression :=
              CreateAssociationInput.ScheduleExpression declaredInput;
            UpdateAssociationInput.Parameters :=
              CreateAssociationInput.Parameters declaredInput;
            UpdateAssociationInput.Targets :=
              CreateAssociationInput.Targets declaredInput;
            UpdateAssociationInput.OutputLocation :=
              CreateAssociationInput.OutputLocation declaredInput |}.
Proof.
  apply (updateAssociationInput_as_create declared "assoc-1" declaredInput);
    [|reflexivity|reflexivity].
  intros Hsame. apply hasChanges_false in Hsame.
  vm_compute in Hsame. discriminate Hsame.
Defined.

Lemma updateAssociationInput_drops_unset_witness :
  hasChanges unscheduled = true
  ∧ updateAssociationInput unscheduled = Done (identifierOnly "assoc-1").
Proof.
  split; [reflexivity|].
  apply (updateAssociationInput_drops_unset unscheduled "assoc-1");
    [reflexivity|].
  unfold trackedFields.
  repeat (constructor;
          [intros Hset; vm_compute in Hset; discriminate Hset|]).
  constructor.
Defined.

Lemma resourceAwsSsmAssociationRead_frame_witness :
  let ssmconn := stubSSM (inl throttled) (inr (describedAt None))
                         (inr nilDescription) in
  state refreshed = state settled
  ∧ (Id refreshed = Id settled ∨ (Id refreshed = "" ∧ @None error = None))
  ∧ calls (afterCall start ()
             (CallDescribeAssociation (describeById settled)))
    = calls start ++ [CallDescribeAssociation (describeById settled)]
  ∧ world (afterCall start ()
             (CallDescribeAssociation (describeById settled)))
    = (DescribeAssociation ssmconn (describeById settled) (world start)).2.
Proof.
  apply (resourceAwsSsmAssociationRead_frame
           (stubSSM (inl throttled) (inr (describedAt None))
                    (inr nilDescription))
           settled refreshed None start).
  reflexivity.
Defined.

Lemma resourceAwsSsmAssociationRead_unreadable_output_location_witness :
  resourceAwsSsmAssociationRead
    (stubSSM (inl throttled)
             (inr (describedAt (Some {| S3Location := None |})))
             (inr nilDescription))
    settled start
  = Panic NilDereference.
Proof.
  apply (resourceAwsSsmAssociationRead_unreadable_output_location
           (stubSSM (inl throttled)
                    (inr (describedAt (Some {| S3Location := None |})))
                    (inr nilDescription))
           settled start ()
           (describedAt (Some {| S3Location := None |})) _
           eq_refl eq_refl eq_refl).
  simpl. intros H. exact H.
Defined.

Lemma resourceAwsSsmAssociationCreate_remote_error_witness :
  resourceAwsSsmAssociationCreate
    (stubSSM (inl notFound) (inl throttled) (inl throttled)) doc1 start
  = Done (doc1,
          Some (errorString
                  ("[ERROR] Error creating SSM association: "
                     +:+ Error notFound)),
          afterCall start () (CallCreateAssociation doc1Input)).
Proof.
  apply (resourceAwsSsmAssociationCreate_remote_error
           (stubSSM (inl notFound) (inl throttled) (inl throttled))
           doc1 start () doc1Input notFound); reflexivity.
Defined.

Lemma resourceAwsSsmAssociationCreate_nil_identifier_witness :
  resourceAwsSsmAssociationCreate
    (stubSSM (inr (described None "doc1")) (inl throttled) (inl throttled))
    doc1 start
  = Panic NilDereference.
Proof.
  apply (resourceAwsSsmAssociationCreate_nil_identifier
           (stubSSM (inr (described None "doc1")) (inl throttled)
                    (inl throttled))
           doc1 start () doc1Input (described None "doc1") _
           eq_refl eq_refl eq_refl eq_refl).
Defined.

Lemma resourceAwsSsmAssociationCreate_calls_witness :
  let ssmconn := stubSSM (inr (described (Some "assoc-1") "doc1"))
                         (inr (described (Some "assoc-1") "doc1"))
                         (inl throttled) in
  let created :=
    {| Id := "assoc-1"; state := ∅;
       fields := {[ "name" := VString "doc1";
                    "association_id" := VString "assoc-1" ]} |} in
  let finish :=
    {| world := ();
       calls := [CallCreateAssociation doc1Input;
                 CallDescribeAssociation
                   {| DescribeAssociationInput.AssociationId :=
                        Some "assoc-1" |}] |} in
  ∃ input,
    createAssociationInput doc1 = Done input
    ∧ state created = state doc1
    ∧ ((calls finish = calls start ++ [CallCreateAssociation input]
        ∧ created = doc1 ∧ is_Some (@None error))
       ∨ (∃ resp description id,
            (CreateAssociation ssmconn input (world start)).1 = inr resp
            ∧ AssociationDescription resp = Some description
            ∧ AssociationDescription.AssociationId description = Some id
            ∧ calls finish
              = calls start ++ [CallCreateAssociation input;
                                CallDescribeAssociation
                                  {| DescribeAssociationInput.AssociationId :=
                                       Some id |}]
            ∧ (Id created = id ∨ Id created = ""))).
Proof.
  cbv zeta.
  apply (resourceAwsSsmAssociationCreate_calls
           (stubSSM (inr (described (Some "assoc-1") "doc1"))
                    (inr (described (Some "assoc-1") "doc1"))
                    (inl throttled))
           doc1 _ None start).
  reflexivity.
Defined.

Lemma resourceAwsSsmAssociationUpdate_remote_error_witness :
  resourceAwsSsmAssociationUpdate
    (stubSSM (inl throttled) (inl throttled) (inl notFound)) rescheduled start
  = Done (rescheduled,
          Some (errorString
                  ("[ERROR] Error updating SSM association: "
                     +:+ Error notFound)),
          afterCall start () (CallUpdateAssociation rescheduledInput)).
Proof.
  apply (resourceAwsSsmAssociationUpdate_remote_error
           (stubSSM (inl throttled) (inl throttled) (inl notFound))
           rescheduled start () rescheduledInput notFound); reflexivity.
Defined.

Lemma resourceAwsSsmAssociationUpdate_calls_witness :
  let finish :=
    {| world := ();
       calls := [CallUpdateAssociation (identifierOnly "assoc-1");
                 CallDescribeAssociation (describeById settled)] |} in
  ∃ input,
    updateAssociationInput settled = Done input
    ∧ state refreshed = state settled
    ∧ ((calls finish = calls start ++ [CallUpdateAssociation input]
        ∧ refreshed = settled ∧ is_Some (@None error))
       ∨ (calls finish
          = calls start ++ [CallUpdateAssociation input;
                            CallDescribeAssociation (describeById settled)]
          ∧ (Id refreshed = Id settled ∨ (Id refreshed = "" ∧ @None error = None)))).
Proof.
  cbv zeta.
  apply (resourceAwsSsmAssociationUpdate_calls
           (stubSSM (inl throttled) (inr (describedAt None))
                    (inr nilDescription))
           settled refreshed None start).
  reflexivity.
Defined.

Lemma resourceAwsSsmAssociationDelete_outcome_witness :
  ∃ err,
    resourceAwsSsmAssociationDelete (failingDeleteSSM notFound) settled start
    = Done (settled, err,
            afterCall start
              (DeleteAssociation (failingDeleteSSM notFound)
                 (deleteById "assoc-1") (world start)).2
              (CallDeleteAssociation (deleteById "assoc-1")))
    ∧ match (DeleteAssociation (failingDeleteSSM notFound)
               (deleteById "assoc-1") (world start)).1 with
      | inl cause =>
          err = Some (errorString
                        ("[ERROR] Error deleting SSM association: "
                           +:+ Error cause))
      | inr _ => err = None
      end.
Proof.
  apply (resourceAwsSsmAssociationDelete_outcome
           (failingDeleteSSM notFound) settled start "assoc-1").
  reflexivity.
Defined.
